(** * dstar-image-prep: a shallow embedding of the image pipeline

    The development follows [dstar_image_prep.py] (size parsing, the size
    fitter [resize_to_fit], the overlay stage [add_watermark] and the
    budgeted encoder [save_jpeg_under_limit]) and the size validation of
    [dstar_gui.py].

    Python integers are [Z].  Python floats are IEEE binary64 values, taken
    from the Standard Library's [SpecFloat] (an executable specification
    over [Z]; no primitive floats are involved).  Exceptions are values of
    [exn] carried by [result].  Calls into Pillow are recorded in a call
    log, so that statements about what happened before an exception can be
    made.  Objects that the code may share or mutate (the image handed to
    the overlay stage, the files under the output directory) live in
    explicit stores. *)

From Stdlib Require Import ZArith String Ascii List Lia.
From Stdlib Require Import SpecFloat.
From Stdlib Require Import Decimal DecimalString DecimalZ.
From stdpp Require Import base option gmap strings list.

Local Open Scope string_scope.
Local Open Scope Z_scope.

(** ** Python run-time fragments *)

Module Py.

(** The exception classes the modelled code can meet. *)
Inductive exn : Type :=
| ValueError (msg : string)
| ZeroDivisionError (msg : string)
| OverflowError (msg : string)
| OSError (msg : string)
| FileNotFoundError (path : string)
| ArgumentTypeError (msg : string)
| SystemError (msg : string).

Inductive result (A : Type) : Type :=
| Ok (a : A)
| Raise (e : exn).
Arguments Ok {A} a.
Arguments Raise {A} e.

Definition is_ok {A} (r : result A) : bool :=
  match r with Ok _ => true | Raise _ => false end.

Definition rbind {A B} (r : result A) (k : A -> result B) : result B :=
  match r with
  | Ok a => k a
  | Raise e => Raise e
  end.

(** *** binary64 arithmetic *)

Definition prec : Z := 53.
Definition emax : Z := 1024.
Definition float : Type := spec_float.

(** [float(n)] for an integer [n]: correctly rounded, and an
    [OverflowError] when [n] is out of range. *)
Definition float_of_int (n : Z) : result float :=
  match binary_normalize prec emax n 0 false with
  | S754_infinity _ => Raise (OverflowError "int too large to convert to float")
  | f => Ok f
  end.

(** [a / b] on two integers: the correctly rounded quotient of the exact
    integers (not of their conversions). *)
Definition int_truediv (a b : Z) : result float :=
  match a, b with
  | _, Z0 => Raise (ZeroDivisionError "division by zero")
  | Z0, Zpos _ => Ok (S754_zero false)
  | Z0, Zneg _ => Ok (S754_zero true)
  | _, _ =>
      match SFdiv prec emax
              (S754_finite (a <? 0) (Z.to_pos (Z.abs a)) 0)
              (S754_finite (b <? 0) (Z.to_pos (Z.abs b)) 0) with
      | S754_infinity _ =>
          Raise (OverflowError "integer division result too large for a float")
      | f => Ok f
      end
  end.

Definition is_zero (f : float) : bool :=
  match f with S754_zero _ => true | _ => false end.

(** [x / y] on two floats. *)
Definition float_truediv (x y : float) : result float :=
  if is_zero y then Raise (ZeroDivisionError "float division by zero")
  else Ok (SFdiv prec emax x y).

(** [n / y] and [n * y] for an integer [n] and a float [y]: the integer
    is converted first. *)
Definition int_div_float (n : Z) (y : float) : result float :=
  rbind (float_of_int n) (fun x => float_truediv x y).

Definition int_mul_float (n : Z) (y : float) : result float :=
  rbind (float_of_int n) (fun x => Ok (SFmul prec emax x y)).

(** [x > y] *)
Definition float_gt (x y : float) : bool := SFltb y x.

(** Round half to even of [m / 2^k] for [m >= 0]. *)
Definition round_half_even_shift (m : Z) (k : Z) : Z :=
  let d := 2 ^ k in
  let q := m / d in
  let r := m mod d in
  match 2 * r ?= d with
  | Lt => q
  | Gt => q + 1
  | Eq => if Z.even q then q else q + 1
  end.

(** [round(x)] with one argument: the nearest integer, ties to even. *)
Definition round (x : float) : result Z :=
  match x with
  | S754_nan => Raise (ValueError "cannot convert float NaN to integer")
  | S754_infinity _ => Raise (OverflowError "cannot convert float infinity to integer")
  | S754_zero _ => Ok 0
  | S754_finite s m e =>
      let a := if 0 <=? e then Z.pos m * 2 ^ e
               else round_half_even_shift (Z.pos m) (- e) in
      Ok (if s then - a else a)
  end.

(** *** Strings

    Strings are sequences of one-byte characters, read as ASCII text: the
    case mapping and the white-space classes are the ASCII ones. *)

Definition is_upper (c : ascii) : bool :=
  let n := N_of_ascii c in ((65 <=? n) && (n <=? 90))%N.

Definition lower_char (c : ascii) : ascii :=
  if is_upper c then ascii_of_N (N_of_ascii c + 32) else c.

(** [s.lower()] *)
Fixpoint lower (s : string) : string :=
  match s with
  | EmptyString => EmptyString
  | String c r => String (lower_char c) (lower r)
  end.

Definition is_space (c : ascii) : bool :=
  let n := N_of_ascii c in
  (((9 <=? n) && (n <=? 13)) || ((28 <=? n) && (n <=? 32)))%N.

Fixpoint lstrip (s : string) : string :=
  match s with
  | EmptyString => EmptyString
  | String c r => if is_space c then lstrip r else s
  end.

Fixpoint rstrip (s : string) : string :=
  match s with
  | EmptyString => EmptyString
  | String c r =>
      match rstrip r with
      | EmptyString => if is_space c then EmptyString else String c EmptyString
      | r' => String c r'
      end
  end.

(** [s.strip()] *)
Definition strip (s : string) : string := rstrip (lstrip s).

(** [sep in s] for a one-character [sep]. *)
Fixpoint contains (sep : ascii) (s : string) : bool :=
  match s with
  | EmptyString => false
  | String c r => if Ascii.eqb c sep then true else contains sep r
  end.

(** [s.split(sep)] for a one-character [sep]: the pieces between the
    occurrences of [sep], empty pieces included. *)
Fixpoint split (sep : ascii) (s : string) : list string :=
  match s with
  | EmptyString => [EmptyString]
  | String c r =>
      if Ascii.eqb c sep then EmptyString :: split sep r
      else match split sep r with
           | p :: ps => String c p :: ps
           | [] => [String c EmptyString]
           end
  end.

(** [s.split(sep, 1)]: cut at the first occurrence only. *)
Fixpoint split1 (sep : ascii) (s : string) : list string :=
  match s with
  | EmptyString => [EmptyString]
  | String c r =>
      if Ascii.eqb c sep then [EmptyString; r]
      else match split1 sep r with
           | p :: ps => String c p :: ps
           | [] => [String c EmptyString]
           end
  end.

(** A truth test on a string: the empty string is false. *)
Definition truthy (s : string) : bool :=
  match s with EmptyString => false | _ => true end.

(** *** Integers and their decimal texts

    CPython bounds the conversions between integers and decimal texts:
    with the default limit of 4300 digits, [str] refuses an integer that
    has more digits and [int] a text that has more digit characters. *)

Definition max_str_digits : Z := 4300.

Definition digit_of (c : ascii) : option Z :=
  let n := N_of_ascii c in
  if ((48 <=? n) && (n <=? 57))%N then Some (Z.of_N n - 48) else None.

(** The number of digit characters of a text. *)
Fixpoint count_digits (s : string) : Z :=
  match s with
  | EmptyString => 0
  | String c r =>
      match digit_of c with
      | Some _ => 1 + count_digits r
      | None => count_digits r
      end
  end.

(** The decimal text of an integer: a minus sign for a negative one, then
    the digits without leading zeros. *)
Definition decimal_text (n : Z) : string := NilZero.string_of_int (Z.to_int n).

(** [str(n)] for an integer, as the f-strings of the program use it. *)
Definition str_of_int (n : Z) : result string :=
  let text := decimal_text n in
  if max_str_digits <? count_digits text then
    Raise (ValueError ("Exceeds the limit (4300 digits) for integer string "
                       ++ "conversion; use sys.set_int_max_str_digits() to "
                       ++ "increase the limit"))
  else Ok text.

(** Digits, where single underscores may stand between two digits.
    [after_digit] tells whether the previous character was a digit. *)
Fixpoint digits_value (s : string) (acc : Z) (after_digit : bool) : option Z :=
  match s with
  | EmptyString => if after_digit then Some acc else None
  | String c r =>
      match digit_of c with
      | Some d => digits_value r (10 * acc + d) true
      | None =>
          if Ascii.eqb c "_"%char && after_digit then digits_value r acc false
          else None
      end
  end.

(** The white space that [int] skips around an ASCII text: the C class,
    which lacks the separators 28 to 31 that [str.strip] removes. *)
Definition is_c_space (c : ascii) : bool :=
  let n := N_of_ascii c in
  (((9 <=? n) && (n <=? 13)) || (n =? 32))%N.

Fixpoint c_lstrip (s : string) : string :=
  match s with
  | EmptyString => EmptyString
  | String c r => if is_c_space c then c_lstrip r else s
  end.

Fixpoint c_rstrip (s : string) : string :=
  match s with
  | EmptyString => EmptyString
  | String c r =>
      match c_rstrip r with
      | EmptyString => if is_c_space c then EmptyString else String c EmptyString
      | r' => String c r'
      end
  end.

(** The longest prefix made of digits and underscores, and what follows
    it. *)
Fixpoint leading_run (s : string) : string * string :=
  match s with
  | EmptyString => (EmptyString, EmptyString)
  | String c r =>
      if match digit_of c with Some _ => true | None => Ascii.eqb c "_"%char end
      then let '(run, rest) := leading_run r in (String c run, rest)
      else (EmptyString, s)
  end.

(** [int(s)] on an ASCII text, base ten: white space, an optional sign,
    the run of digits, white space.  The run is checked first, then its
    length against the limit, then that nothing follows it. *)
Definition int_of_str (s : string) : result Z :=
  let invalid :=
    Raise (ValueError ("invalid literal for int() with base 10: " ++ s)) in
  let body := c_rstrip (c_lstrip s) in
  let '(negative, unsigned) :=
    match body with
    | String "-"%char r => (true, r)
    | String "+"%char r => (false, r)
    | _ => (false, body)
    end in
  let '(run, rest) := leading_run unsigned in
  match digits_value run 0 false with
  | None => invalid
  | Some n =>
      if max_str_digits <? count_digits run then
        Raise (ValueError ("Exceeds the limit (4300 digits) for integer string "
                           ++ "conversion: value has "
                           ++ decimal_text (count_digits run)
                           ++ " digits; use sys.set_int_max_str_digits() to "
                           ++ "increase the limit"))
      else if truthy rest then invalid
      else Ok (if negative then - n else n)
  end.

(** [max(l)] on a list of integers. *)
Definition max_list (l : list Z) : result Z :=
  match l with
  | [] => Raise (ValueError "max() arg is an empty sequence")
  | x :: r => Ok (fold_left Z.max r x)
  end.

(** [sum(l)] on a list of integers. *)
Definition sum_list (l : list Z) : Z := fold_left Z.add l 0.

End Py.

(** ** The Pillow calls the program makes *)

Module PIL.
Import Py.

(** A pixel is the list of its band values; a raster gives the pixel at
    column [x] and row [y].  Only coordinates inside the image size are
    meaningful. *)
Definition pixel : Type := list Z.
Definition raster : Type := Z -> Z -> pixel.

Record Image : Type := mkImage {
  mode : string;
  size : Z * Z;                 (* (width, height) *)
  orientation : option Z;       (* EXIF tag 0x0112, when present *)
  px : raster
}.

Definition width (im : Image) : Z := fst (size im).
Definition height (im : Image) : Z := snd (size im).

(** The same image object with another raster. *)
Definition with_px (im : Image) (r : raster) : Image :=
  {| mode := mode im; size := size im; orientation := orientation im; px := r |}.

Inductive font : Type :=
| FreeTypeFont (path : string) (points : Z)
| DefaultFont.

(** What the library computes inside its C code, and what the host
    provides, is left to an interface: the pixel maps of transposition,
    colour conversion and resampling, the font files present, text
    measurement and rendering, and the JPEG encoder. *)
Class Backend : Type := {
  transpose_px : Z -> Z * Z -> raster -> raster;
  convert_px : string -> string -> raster -> raster;
  lanczos_px : Z * Z -> raster -> Z * Z -> raster;
  font_file : string -> bool;
  bbox_of : font -> string -> Z * Z * Z * Z;
  text_px : font -> string -> Z * Z -> pixel -> Image -> raster;
  jpeg_bytes : Image -> Z -> list Byte.byte
}.

(** The log of library calls, in call order. *)
Inductive call : Type :=
| CExifTranspose
| CConvert (m : string)
| CResize (sz : Z * Z)
| CNew (m : string) (sz : Z * Z) (color : pixel)
| CPaste (at_ : Z * Z)
| CCrop (box : Z * Z * Z * Z).

(** A pixel operation is any of them: each one reads or writes rasters. *)
Definition logged (A : Type) : Type := list call * result A.

Definition ret {A} (a : A) : logged A := ([], Ok a).

Definition bind {A B} (m : logged A) (k : A -> logged B) : logged B :=
  match m with
  | (l, Ok a) => let '(l', r) := k a in ((l ++ l')%list, r)
  | (l, Raise e) => (l, Raise e)
  end.

Definition lift {A} (r : result A) : logged A := ([], r).

Definition tell (c : call) : logged unit := ([c], Ok tt).

Definition raise {A} (e : exn) : logged A := ([], Raise e).

Definition calls {A} (m : logged A) : list call := fst m.
Definition outcome {A} (m : logged A) : result A := snd m.

Declare Scope pil_scope.
Delimit Scope pil_scope with pil.
Notation "x <- m ;; k" := (bind m (fun x => k))
  (at level 100, m at next level, right associativity) : pil_scope.
Notation "m ;;; k" := (bind m (fun _ => k))
  (at level 100, right associativity) : pil_scope.

Section Calls.
Context `{Backend}.
Local Open Scope pil_scope.

(** [ImageOps.exif_transpose]: orientations 2 to 8 select a
    transposition, 5 to 8 exchange width and height; the tag is
    removed from the transposed image.  Any other value, or no tag,
    gives a copy. *)
Definition transposed (im : Image) : Image :=
  let o := default 1 (orientation im) in
  if (2 <=? o) && (o <=? 8) then
    {| mode := mode im;
       size := if 5 <=? o then (height im, width im) else size im;
       orientation := None;
       px := transpose_px o (size im) (px im) |}
  else im.

Definition exif_transpose (im : Image) : logged Image :=
  tell CExifTranspose ;;; ret (transposed im).

(** [Image.convert] *)
Definition convert (im : Image) (m : string) : logged Image :=
  tell (CConvert m) ;;;
  ret {| mode := m; size := size im; orientation := orientation im;
         px := convert_px (mode im) m (px im) |}.

(** [Image.resize] with the Lanczos filter: a copy when the size is
    unchanged, a [ValueError] when a requested side is below one.  Frames
    that the library cannot take (a side beyond a C integer, a frame it
    cannot allocate) are outside the model: with both sides at least one
    the call returns. *)
Definition resize (im : Image) (sz : Z * Z) : logged Image :=
  tell (CResize sz) ;;;
  if decide (size im = sz) then ret im
  else if (fst sz <? 1) || (snd sz <? 1)
  then raise (ValueError "height and width must be > 0")
  else ret {| mode := mode im; size := sz; orientation := orientation im;
              px := lanczos_px (size im) (px im) sz |}.

(** [Image.new]: a canvas filled with one colour. *)
Definition new (m : string) (sz : Z * Z) (color : pixel) : logged Image :=
  tell (CNew m sz color) ;;;
  if (fst sz <? 0) || (snd sz <? 0)
  then raise (ValueError "Width and height must be >= 0")
  else ret {| mode := m; size := sz; orientation := None;
              px := fun _ _ => color |}.

(** The raster of a canvas after [canvas.paste(src, (ox, oy))]. *)
Definition pasted_px (canvas src : Image) (at_ : Z * Z) : raster :=
  fun x y =>
    let '(ox, oy) := at_ in
    if (ox <=? x) && (x <? ox + width src) && (oy <=? y) && (y <? oy + height src)
    then px src (x - ox) (y - oy)
    else px canvas x y.

(** [Image.paste] changes the canvas in place; the canvas after the
    call is returned. *)
Definition paste (canvas src : Image) (at_ : Z * Z) : logged Image :=
  tell (CPaste at_) ;;;
  ret (with_px canvas (pasted_px canvas src at_)).

(** [Image.crop]: the window may reach outside the image, where it
    reads zeros. *)
Definition crop (im : Image) (box : Z * Z * Z * Z) : logged Image :=
  let '(x0, y0, x1, y1) := box in
  tell (CCrop box) ;;;
  if x1 <? x0 then raise (ValueError "Coordinate 'right' is less than 'left'")
  else if y1 <? y0 then raise (ValueError "Coordinate 'lower' is less than 'upper'")
  else ret {| mode := mode im; size := (x1 - x0, y1 - y0);
              orientation := orientation im;
              px := fun x y =>
                      let sx := x + x0 in
                      let sy := y + y0 in
                      if (0 <=? sx) && (sx <? width im) && (0 <=? sy) && (sy <? height im)
                      then px im sx sy
                      else map (fun _ => 0) (px im 0 0) |}.
End Calls.

End PIL.

(** ** dstar_image_prep.py *)

Import Py PIL.

(** [parse_size]: every exception of the body becomes an
    [ArgumentTypeError]. *)
Definition parse_size (s : string) : result (Z * Z) :=
  let body :=
    match split "x" (lower s) with
    | [w; h] =>
        rbind (int_of_str w) (fun w' =>
        rbind (int_of_str h) (fun h' => Ok (w', h')))
    | [] | [_] => Raise (ValueError "not enough values to unpack (expected 2)")
    | _ => Raise (ValueError "too many values to unpack (expected 2)")
    end in
  match body with
  | Ok v => Ok v
  | Raise _ =>
      Raise (ArgumentTypeError ("Invalid size '" ++ s ++ "'. Use like 640x480."))
  end.

Section SizeFitter.
Context `{Backend}.
Local Open Scope pil_scope.

Definition resize_to_fit (img : Image) (size : Z * Z) (mode : string)
  : logged Image :=
  let '(target_w, target_h) := size in
  (* Fix phone EXIF orientation and ensure RGB *)
  t <- exif_transpose img ;;
  img <- convert t "RGB" ;;
  if String.eqb mode "exact" then
    resize img (target_w, target_h)
  else
    let '(src_w, src_h) := PIL.size img in
    src_ratio <- lift (int_truediv src_w src_h) ;;
    tgt_ratio <- lift (int_truediv target_w target_h) ;;
    if String.eqb mode "contain" then
      (* Fit inside target, keep aspect, letterbox *)
      dims <- lift (if float_gt src_ratio tgt_ratio then
                      rbind (rbind (int_div_float target_w src_ratio) round)
                            (fun new_h => Ok (target_w, new_h))
                    else
                      rbind (rbind (int_mul_float target_h src_ratio) round)
                            (fun new_w => Ok (new_w, target_h))) ;;
      let '(new_w, new_h) := dims in
      resized <- resize img (new_w, new_h) ;;
      canvas <- new "RGB" (target_w, target_h) [0; 0; 0] ;;
      paste canvas resized ((target_w - new_w) / 2, (target_h - new_h) / 2)
    else if String.eqb mode "cover" then
      (* Fill target, keep aspect, crop center *)
      dims <- lift (if float_gt src_ratio tgt_ratio then
                      rbind (rbind (int_mul_float target_h src_ratio) round)
                            (fun new_w => Ok (new_w, target_h))
                    else
                      rbind (rbind (int_div_float target_w src_ratio) round)
                            (fun new_h => Ok (target_w, new_h))) ;;
      let '(new_w, new_h) := dims in
      resized <- resize img (new_w, new_h) ;;
      let left_ := (new_w - target_w) / 2 in
      let top := (new_h - target_h) / 2 in
      crop resized (left_, top, left_ + target_w, top + target_h)
    else
      raise (ValueError ("Unknown resize mode: " ++ mode)).

End SizeFitter.

(** *** The overlay stage

    [add_watermark] may hand back the very object it was given, so images
    are objects in a store here, and an image argument is a reference. *)

Definition ref : Type := positive.
Abbreviation store := (gmap ref Image).

Definition heap (A : Type) : Type := store -> store * result A.

Definition hret {A} (a : A) : heap A := fun st => (st, Ok a).

Definition hbind {A B} (m : heap A) (k : A -> heap B) : heap B :=
  fun st =>
    match m st with
    | (st', Ok a) => k a st'
    | (st', Raise e) => (st', Raise e)
    end.

Definition hlift {A} (r : result A) : heap A := fun st => (st, r).

Declare Scope heap_scope.
Delimit Scope heap_scope with heap.
Notation "x <- m ;; k" := (hbind m (fun x => k))
  (at level 100, m at next level, right associativity) : heap_scope.
Notation "m ;;; k" := (hbind m (fun _ => k))
  (at level 100, right associativity) : heap_scope.

(** Reading an object.  A reference held by a running program always
    points to an object; the error case is there to make the function
    total. *)
Definition deref (r : ref) : heap Image :=
  fun st =>
    match st !! r with
    | Some im => (st, Ok im)
    | None => (st, Raise (SystemError "dangling reference"))
    end.

Section Overlay.
Context `{Backend}.
Local Open Scope heap_scope.

(** [img.copy()]: a new object with the same content. *)
Definition copy (r : ref) : heap ref :=
  im <- deref r ;;
  fun st => let r' := fresh (dom st) in (<[r' := im]> st, Ok r').

(** [ImageFont.truetype(path, size)] *)
Definition truetype (path : string) (points : Z) : result font :=
  if font_file path then Ok (FreeTypeFont path points)
  else Raise (OSError "cannot open resource").

Definition load_default : font := DefaultFont.

(** [draw.textbbox((0, 0), text, font=font)].  The measurement is taken to
    succeed for both kinds of font, as in Pillow 9.2 and later. *)
Definition textbbox (text : string) (f : font) : Z * Z * Z * Z :=
  bbox_of f text.

(** [draw.text(xy, text, font=font, fill=fill)] for the drawing context
    of the object [r]: the object is changed in place.  The fill is a
    triple, as for the RGB images that the size fitter hands on; an image
    of a mode that takes no such fill is outside the model. *)
Definition draw_text (r : ref) (xy : Z * Z) (text : string) (f : font)
    (fill : pixel) : heap unit :=
  im <- deref r ;;
  fun st => (<[r := with_px im (text_px f text xy fill im)]> st, Ok tt).

(** The measuring loop: the widths and heights of the lines, in order. *)
Fixpoint measure (lines : list (string * font)) : list Z * list Z :=
  match lines with
  | [] => ([], [])
  | (text, f) :: rest =>
      let '(x0, y0, x1, y1) := textbbox text f in
      let w := x1 - x0 in
      let h := y1 - y0 in
      let '(line_widths, line_heights) := measure rest in
      (w :: line_widths, h :: line_heights)
  end.

(** The drawing loop over [zip(lines, line_heights)]. *)
Fixpoint draw_lines (img : ref) (x y : Z)
    (items : list ((string * font) * Z)) : heap unit :=
  match items with
  | [] => hret tt
  | ((text, f), h) :: rest =>
      draw_text img (x + 1, y + 1) text f [0; 0; 0] ;;;
      draw_text img (x, y) text f [255; 255; 255] ;;;
      draw_lines img x (y + h + 4) rest
  end.

Definition add_watermark (img : ref) (identity_text caption_text : string)
    (margin : Z) : heap ref :=
  if negb (truthy identity_text) && negb (truthy caption_text) then
    hret img
  else
    img <- copy img ;;
    (* Font (Windows-safe for now) *)
    let '(font_main, font_caption) :=
      match rbind (truetype "C:/Windows/Fonts/arial.ttf" 20) (fun a =>
            rbind (truetype "C:/Windows/Fonts/arial.ttf" 18) (fun b =>
            Ok (a, b))) with
      | Ok fonts => fonts
      | Raise _ => (load_default, load_default)
      end in
    let lines : list (string * font) := [] in
    (* Identity block (callsign | location) *)
    let lines :=
      if truthy identity_text
      then (lines ++ map (fun line => (line, font_main)) (split "|" identity_text))%list
      else lines in
    (* Optional caption line *)
    let lines :=
      if truthy caption_text
      then (lines ++ [(caption_text, font_caption)])%list
      else lines in
    (* Measure total block *)
    let '(line_widths, line_heights) := measure lines in
    let total_height :=
      sum_list line_heights + (Z.of_nat (List.length lines) - 1) * 4 in
    max_width <- hlift (max_list line_widths) ;;
    (* Bottom-left placement *)
    let x := margin in
    im <- deref img ;;
    let y := height im - total_height - margin in
    (* Draw lines *)
    draw_lines img x y (zip lines line_heights) ;;;
    hret img.

End Overlay.

(** *** The budgeted encoder

    The files under the output directory are a map from paths to
    contents.  The [while] loop runs on fuel: [None] means the fuel ran
    out before the loop ended. *)

Abbreviation files := (gmap string (list Byte.byte)).

(** [path.stat().st_size] *)
Definition stat_size (fs : files) (path : string) : result Z :=
  match fs !! path with
  | Some content => Ok (Z.of_nat (List.length content))
  | None => Raise (FileNotFoundError path)
  end.

Section Encoder.
Context `{Backend}.

(** [img.save(out_path, format="JPEG", quality=q, optimize=True,
    progressive=False, subsampling=2)]: the destination is overwritten.
    Faults of the encoder and of the host (an image without pixels or
    with a side that JPEG cannot hold, a full disk, a missing directory)
    are outside the model: the write succeeds. *)
Definition save (img : Image) (out_path : string) (q : Z) (fs : files) : files :=
  <[out_path := jpeg_bytes img q]> fs.

Fixpoint save_loop (fuel : nat) (img : Image) (out_path : string)
    (max_bytes quality_min quality_step q : Z) (fs : files)
  : option (files * result (Z * Z)) :=
  match fuel with
  | O => None
  | S fuel' =>
      if quality_min <=? q then
        let fs := save img out_path q fs in
        match stat_size fs out_path with
        | Raise e => Some (fs, Raise e)
        | Ok size_bytes =>
            if size_bytes <=? max_bytes then Some (fs, Ok (q, size_bytes))
            else save_loop fuel' img out_path max_bytes quality_min
                   quality_step (q - quality_step) fs
        end
      else
        (* Could not reach target size: keep smallest generated *)
        match stat_size fs out_path with
        | Raise e => Some (fs, Raise e)
        | Ok size_bytes => Some (fs, Ok (q + quality_step, size_bytes))
        end
  end.

Definition save_jpeg_under_limit (fuel : nat) (img : Image) (out_path : string)
    (max_kb quality_start quality_min quality_step : Z) (fs : files)
  : option (files * result (Z * Z)) :=
  let max_bytes := max_kb * 1024 in
  let q := quality_start in
  save_loop fuel img out_path max_bytes quality_min quality_step q fs.

End Encoder.

(** ** dstar_gui.py *)

Module App.

(** [App._parse_size], on the text of the size field. *)
Definition _parse_size (size_var : string) : result (Z * Z) :=
  let raw := lower (strip size_var) in
  if negb (contains "x" raw) then
    Raise (ValueError "Target Size must look like 640x480")
  else
    match split1 "x" raw with
    | [w_s; h_s] =>
        rbind (int_of_str w_s) (fun w =>
        rbind (int_of_str h_s) (fun h =>
        if (w <=? 0) || (h <=? 0) then
          Raise (ValueError "Target Size must be positive numbers")
        else Ok (w, h)))
    | _ => Raise (ValueError "not enough values to unpack (expected 2)")
    end.

End App.

(** ** Vocabulary of the statements *)

(** The three fit policies. *)
Definition known_mode (mode : string) : Prop :=
  mode = "cover" \/ mode = "contain" \/ mode = "exact".

(** The image the size fitter works on: orientation applied, RGB. *)
Definition normalized `{Backend} (img : Image) : Image :=
  let t := transposed img in
  {| mode := "RGB"; size := PIL.size t; orientation := orientation t;
     px := convert_px (mode t) "RGB" (px t) |}.

(** The content size of the letterbox policy, as the design document words
    it: with [srcRatio = srcW / srcH] and [tgtRatio = width / height], if
    [srcRatio > tgtRatio] then [newW = width] and
    [newH = round(width / srcRatio)], else [newH = height] and
    [newW = round(height * srcRatio)]. *)
Definition contain_content_size (srcW srcH width height : Z) : result (Z * Z) :=
  rbind (int_truediv srcW srcH) (fun srcRatio =>
  rbind (int_truediv width height) (fun tgtRatio =>
  if float_gt srcRatio tgtRatio then
    rbind (rbind (int_div_float width srcRatio) round) (fun newH => Ok (width, newH))
  else
    rbind (rbind (int_mul_float height srcRatio) round) (fun newW => Ok (newW, height)))).

(** A black canvas of the frame size with [content] pasted at the centring
    offsets, by floor division. *)
Definition letterboxed (content : Image) (width height : Z) : Image :=
  let ox := (width - PIL.width content) / 2 in
  let oy := (height - PIL.height content) / 2 in
  {| mode := "RGB"; size := (width, height); orientation := None;
     px := fun x y =>
             if (ox <=? x) && (x <? ox + PIL.width content)
                && (oy <=? y) && (y <? oy + PIL.height content)
             then px content (x - ox) (y - oy)
             else [0; 0; 0] |}.

(** The overlay as a function on image values: the shadow and the text of
    each line, top to bottom. *)
Fixpoint drawn `{Backend} (im : Image) (x y : Z)
    (items : list ((string * font) * Z)) : Image :=
  match items with
  | [] => im
  | ((text, f), h) :: rest =>
      let shadowed := with_px im (text_px f text (x + 1, y + 1) [0; 0; 0] im) in
      let lit := with_px shadowed (text_px f text (x, y) [255; 255; 255] shadowed) in
      drawn lit x (y + h + 4) rest
  end.

(** The texts of the overlay block: the identity lines, then the caption. *)
Definition overlay_texts (identity_text caption_text : string) : list string :=
  ((if truthy identity_text then split "|" identity_text else []) ++
   (if truthy caption_text then [caption_text] else []))%list.

Section EncoderVocabulary.
Context `{Backend}.

(** The byte size of the trial encoded at quality [q]. *)
Definition trial_size (img : Image) (q : Z) : Z :=
  Z.of_nat (List.length (jpeg_bytes img q)).

(** The trial at quality [q] meets the budget. *)
Definition fits (img : Image) (max_bytes q : Z) : Prop :=
  trial_size img q <= max_bytes.

(** Fuel for every trial of the scan and the final loop test. *)
Definition enough_fuel (quality_start quality_min quality_step : Z) : nat :=
  Z.to_nat ((quality_start - quality_min) / quality_step) + 2.

(** The lowest quality of the scan [quality_start],
    [quality_start - quality_step], ... that is not below
    [quality_min]. *)
Definition last_quality (quality_start quality_min quality_step : Z) : Z :=
  quality_start - ((quality_start - quality_min) / quality_step) * quality_step.
End EncoderVocabulary.

(** Two images with the same attributes and the same pixels. *)
Definition same_image (a b : Image) : Prop :=
  mode a = mode b /\ PIL.size a = PIL.size b /\ orientation a = orientation b /\
  forall x y, px a x y = px b x y.

(** Two outcomes that raise the same exception or return the same image. *)
Definition agree (r1 r2 : result Image) : Prop :=
  match r1, r2 with
  | Ok a, Ok b => same_image a b
  | Raise e1, Raise e2 => e1 = e2
  | _, _ => False
  end.

(** The letterbox policy, as the design document words it: resize the
    source to the content size, then paste it centred onto a black canvas
    of the frame size. *)
Definition letterbox `{Backend} (src : Image) (width height : Z) : result Image :=
  rbind (contain_content_size (PIL.width src) (PIL.height src) width height)
    (fun '(newW, newH) =>
  rbind (outcome (resize src (newW, newH))) (fun content =>
  rbind (outcome (new "RGB" (width, height) [0; 0; 0])) (fun _ =>
  Ok (letterboxed content width height)))).

(** ** A backend to run the model on examples

    Nearest-neighbour resampling, no font file on the host, six by eleven
    pixel glyph boxes, text that paints its anchor pixel, and an encoder
    whose output grows with the quality. *)

#[export] Instance plain_backend : Backend := {|
  transpose_px := fun _ _ r => r;
  convert_px := fun _ _ r => r;
  lanczos_px := fun '(sw, sh) r '(w, h) => fun x y => r (x * sw / w) (y * sh / h);
  font_file := fun _ => false;
  bbox_of := fun _ text => (0, 0, 6 * Z.of_nat (String.length text), 11);
  text_px := fun _ _ xy fill im =>
               fun x y => if decide ((x, y) = xy) then fill else px im x y;
  jpeg_bytes := fun _ q => repeat Byte.x00 (Z.to_nat (1000 + 20 * q))
|}.

(** A gradient image of a given size, without an orientation tag. *)
Definition gradient (w h : Z) : Image :=
  {| mode := "RGB"; size := (w, h); orientation := None;
     px := fun x y => [x mod 256; y mod 256; 0] |}.

(** ** The rest of dstar_image_prep.py: names, one file, a batch

    Paths are their text in normal form, with [/] between the components
    and no trailing [/]: the POSIX flavour of [pathlib].  The Windows
    flavour also cuts at a backslash and at the colon of a drive, and
    reads two leading separators as a share; the two flavours agree on
    the name, the stem and the suffix of a text that is a single
    component for both. *)

Module Pathlib.
Import Py.

(** Cut at the last occurrence of [sep]: the text before it and the text
    after it. *)
Fixpoint rpartition (sep : ascii) (s : string) : option (string * string) :=
  match s with
  | EmptyString => None
  | String c r =>
      match rpartition sep r with
      | Some (a, b) => Some (String c a, b)
      | None => if Ascii.eqb c sep then Some (EmptyString, r) else None
      end
  end.

(** [path.name]: the final component. *)
Definition name (path : string) : string :=
  match rpartition "/" path with
  | Some (_, last) => last
  | None => path
  end.

(** [path.suffix], as in CPython 3.12 and earlier: with [i] the index of
    the last dot of the name, the text from [i] on when
    [0 < i < len(name) - 1], and the empty string otherwise. *)
Definition suffix (path : string) : string :=
  match rpartition "." (name path) with
  | Some (before, after) =>
      if truthy before && truthy after then String "." after else EmptyString
  | None => EmptyString
  end.

(** [path.stem]: the name without its suffix. *)
Definition stem (path : string) : string :=
  match rpartition "." (name path) with
  | Some (before, after) =>
      if truthy before && truthy after then before else name path
  | None => name path
  end.

(** [dir / child] for a child text: a child that starts with [/] replaces
    the directory; the result is not normalized any further. *)
Definition joinpath (dir child : string) : string :=
  match child with
  | EmptyString => dir
  | String "/" _ => child
  | _ =>
      match rpartition "/" dir with
      | Some (_, EmptyString) => dir ++ child
      | _ => dir ++ "/" ++ child
      end
  end.

End Pathlib.

(** The value of a digit sequence read from the left. *)
Fixpoint uint_value (d : uint) (acc : Z) : Z :=
  match d with
  | Nil => acc
  | D0 l => uint_value l (10 * acc + 0)
  | D1 l => uint_value l (10 * acc + 1)
  | D2 l => uint_value l (10 * acc + 2)
  | D3 l => uint_value l (10 * acc + 3)
  | D4 l => uint_value l (10 * acc + 4)
  | D5 l => uint_value l (10 * acc + 5)
  | D6 l => uint_value l (10 * acc + 6)
  | D7 l => uint_value l (10 * acc + 7)
  | D8 l => uint_value l (10 * acc + 8)
  | D9 l => uint_value l (10 * acc + 9)
  end.


(** The characters of a printed integer: the digits and the minus sign. *)
Definition numeral_char (c : ascii) : bool :=
  match digit_of c with
  | Some _ => true
  | None => Ascii.eqb c "-"
  end.

Fixpoint numeral (s : string) : bool :=
  match s with
  | EmptyString => true
  | String c r => numeral_char c && numeral r
  end.

(** A text without white space. *)
Fixpoint solid (s : string) : bool :=
  match s with
  | EmptyString => true
  | String c r => negb (is_space c) && solid r
  end.

Definition supported_suffixes : list string :=
  [".jpg"; ".jpeg"; ".png"; ".bmp"; ".tif"; ".tiff"; ".webp"].

Definition is_image_file (p : string) : bool :=
  existsb (String.eqb (lower (Pathlib.suffix p))) supported_suffixes.

Definition build_output_name (in_path prefix suffix : string) : string :=
  let stem := Pathlib.stem in_path in
  let prefix := strip prefix in
  let suffix := strip suffix in
  let name := stem in
  let name := if truthy prefix then prefix ++ "_" ++ name else name in
  let name := if truthy suffix then name ++ "_" ++ suffix else name in
  name ++ ".jpg".

(** The fonts of a run: both from the font file, or both the default. *)
Definition fonts_of_host `{Backend} : font * font :=
  if font_file "C:/Windows/Fonts/arial.ttf"
  then (FreeTypeFont "C:/Windows/Fonts/arial.ttf" 20,
        FreeTypeFont "C:/Windows/Fonts/arial.ttf" 18)
  else (DefaultFont, DefaultFont).

(** A text made of white space only. *)
Fixpoint blank (s : string) : bool :=
  match s with
  | EmptyString => true
  | String c r => is_space c && blank r
  end.

(** A text that is a single path component for both flavours of
    [pathlib]: no slash, no backslash, no colon. *)
Definition backslash : ascii := ascii_of_N 92.

Definition bare (s : string) : bool :=
  negb (contains "/" s) && negb (contains backslash s) && negb (contains ":" s).

(** A text made of dots only, the empty text included: as a path it names
    a directory, the current one or one above it, not a file. *)
Fixpoint dots (s : string) : bool :=
  match s with
  | EmptyString => true
  | String c r => Ascii.eqb c "." && dots r
  end.

(** A text of ASCII characters without the separators 28 to 31, on which
    [str.strip] and [int] skip the same white space. *)
Fixpoint plain_text (s : string) : bool :=
  match s with
  | EmptyString => true
  | String c r =>
      let n := N_of_ascii c in
      ((n <? 128) && negb ((28 <=? n) && (n <=? 31)))%N && plain_text r
  end.

(** A text made of the white space of [int] only. *)
Fixpoint c_blank (s : string) : bool :=
  match s with
  | EmptyString => true
  | String c r => is_c_space c && c_blank r
  end.

(** An extension as users write it: not empty, without dot or slash. *)
Definition plain_extension (ext : string) : bool :=
  truthy ext && negb (contains "." ext) && negb (contains "/" ext).

(** Decoding the bytes of an image file is the library's business. *)
Class Decoder : Type := {
  decode : list Byte.byte -> option Image
}.

(** [Image.open(path)] *)
Definition image_open `{Decoder} (fs : files) (path : string) : result Image :=
  match fs !! path with
  | None => Raise (FileNotFoundError path)
  | Some content =>
      match decode content with
      | Some im => Ok im
      | None => Raise (OSError "cannot identify image file")
      end
  end.

(** The fields of the status line that [process_one] prints. *)
Record report : Type := mkReport {
  in_name : string;
  out_name : string;
  byte_size : Z;
  quality : Z;
  frame : string;          (* the text WIDTHxHEIGHT *)
  fit_mode : string
}.

(** Writing the status line to standard output is the host's business;
    it can fail, on a closed stream or on a name that the console cannot
    encode. *)
Class Console : Type := {
  print_fault : report -> option exn
}.

(** The fields of the f-string of [process_one], formatted from left to
    right: the size in kilobytes is a true division, and the quality and
    the two sides of the frame are printed as integers. *)
Definition status_line (in_path out_path : string) (b q : Z) (size : Z * Z)
    (mode : string) : result report :=
  rbind (int_truediv b 1024) (fun _ =>
  rbind (str_of_int q) (fun _ =>
  rbind (str_of_int (fst size)) (fun w_s =>
  rbind (str_of_int (snd size)) (fun h_s =>
  Ok {| in_name := Pathlib.name in_path;
        out_name := Pathlib.name out_path;
        byte_size := b;
        quality := q;
        frame := w_s ++ "x" ++ h_s;
        fit_mode := mode |})))).

Section Orchestrator.
Context `{Backend} `{Decoder} `{Console}.

(** [print(line)] *)
Definition print (line : report) : result report :=
  match print_fault line with
  | Some e => Raise e
  | None => Ok line
  end.

(** [add_watermark(img2, watermark, caption)] on the image just fitted:
    the image is an object of its own, and the image behind the returned
    reference is what the next stage gets. *)
Definition watermarked (img2 : Image) (watermark caption : string) : result Image :=
  let '(st, r) := add_watermark 1%positive watermark caption 14
                    {[1%positive := img2]} in
  rbind r (fun img2' =>
    match st !! img2' with
    | Some im => Ok im
    | None => Raise (SystemError "dangling reference")
    end).

(** [process_one]: the output name, then, with the input opened, the size
    fitter, the overlay stage and the encoder at 88, 35, 3, and at the
    end the status line, which is formatted and printed after the output
    file has been written. *)
Definition process_one (fuel : nat) (in_path out_dir : string) (size : Z * Z)
    (max_kb : Z) (mode watermark caption prefix suffix : string) (fs : files)
  : option (files * result report) :=
  let out_name := build_output_name in_path prefix suffix in
  let out_path := Pathlib.joinpath out_dir out_name in
  match image_open fs in_path with
  | Raise e => Some (fs, Raise e)
  | Ok img =>
      match outcome (resize_to_fit img size mode) with
      | Raise e => Some (fs, Raise e)
      | Ok img2 =>
          match watermarked img2 watermark caption with
          | Raise e => Some (fs, Raise e)
          | Ok img2 =>
              match save_jpeg_under_limit fuel img2 out_path max_kb 88 35 3 fs with
              | None => None
              | Some (fs', Raise e) => Some (fs', Raise e)
              | Some (fs', Ok (q, b)) =>
                  Some (fs', rbind (status_line in_path out_path b q size mode)
                                   print)
              end
          end
      end
  end.

(** The loop [for f in files: process_one(f, ...)]: the first exception
    ends it. *)
Fixpoint process_each (fuel : nat) (inputs : list string) (out_dir : string)
    (size : Z * Z) (max_kb : Z) (mode watermark caption prefix suffix : string)
    (fs : files) : option (files * result (list report)) :=
  match inputs with
  | [] => Some (fs, Ok [])
  | f :: rest =>
      match process_one fuel f out_dir size max_kb mode watermark caption
              prefix suffix fs with
      | None => None
      | Some (fs', Raise e) => Some (fs', Raise e)
      | Some (fs', Ok line) =>
          match process_each fuel rest out_dir size max_kb mode watermark
                  caption prefix suffix fs' with
          | None => None
          | Some (fs'', Raise e) => Some (fs'', Raise e)
          | Some (fs'', Ok lines) => Some (fs'', Ok (line :: lines))
          end
      end
  end.

End Orchestrator.

(** [App._parse_max_kb], on the text of the budget field. *)
Definition _parse_max_kb (max_kb_var : string) : result Z :=
  rbind (int_of_str (strip max_kb_var)) (fun kb =>
  if kb <=? 0 then Raise (ValueError "Max KB must be a positive number")
  else Ok kb).

(** A decoder for examples: the first two bytes are the width and the
    height, and a file shorter than that is no image. *)
#[export] Instance plain_decoder : Decoder := {|
  decode := fun content =>
    match content with
    | w :: h :: _ =>
        Some (gradient (Z.of_N (Byte.to_N w)) (Z.of_N (Byte.to_N h)))
    | _ => None
    end
|}.

(** A console that takes every line. *)
#[export] Instance plain_console : Console := {|
  print_fault := fun _ => None
|}.

(** A store of files with one 80 by 40 image. *)
Definition one_image : files := {["/in/a.png" := [Byte.x50; Byte.x28; Byte.x00]]}.

(** A store of files with an 80 by 40 image and a 40 by 80 image. *)
Definition two_images : files :=
  <["/in/b.png" := [Byte.x28; Byte.x50; Byte.x00]]> one_image.

(** * Theorems *)

(** ** The budgeted encoder: facts about the scan *)

Section EncoderFacts.
Context `{Backend}.
Variables (img : Image) (out_path : string).

Lemma stat_after_save q fs :
  stat_size (save img out_path q fs) out_path = Ok (trial_size img q).
Proof. unfold stat_size, save, trial_size. by rewrite lookup_insert_eq. Qed.

Lemma save_save q q' fs :
  save img out_path q (save img out_path q' fs) = save img out_path q fs.
Proof. unfold save. apply insert_insert_eq. Qed.

Lemma save_lookup q fs : save img out_path q fs !! out_path = Some (jpeg_bytes img q).
Proof. unfold save. apply lookup_insert_eq. Qed.

Lemma save_other q fs p : p <> out_path -> save img out_path q fs !! p = fs !! p.
Proof. intros Hp. unfold save. by rewrite lookup_insert_ne. Qed.

Lemma div_step_down qmin step q :
  0 < step -> qmin <= q - step ->
  (q - step - qmin) / step = (q - qmin) / step - 1.
Proof.
  intros Hs Hq.
  replace (q - step - qmin) with ((q - qmin) + (-1) * step) by lia.
  rewrite Z.div_add by lia. lia.
Qed.

(** More fuel does not change a run that ended. *)
Lemma save_loop_more_fuel max_bytes qmin step fuel : forall extra q fs r,
  save_loop fuel img out_path max_bytes qmin step q fs = Some r ->
  save_loop (fuel + extra) img out_path max_bytes qmin step q fs = Some r.
Proof.
  induction fuel as [|fuel IH]; intros extra q fs r; [discriminate|].
  cbn [save_loop Nat.add].
  destruct (qmin <=? q); [|auto].
  destruct (stat_size _ _); [|auto].
  destruct (_ <=? max_bytes); [auto|]. apply IH.
Qed.

(** The run from quality [q]: it stops at the first trial that fits, or
    at the last trial above the floor, and the file it leaves is that
    trial. *)
Lemma save_loop_scan max_bytes qmin step fuel : forall q fs,
  0 < step -> qmin <= q ->
  (enough_fuel q qmin step <= fuel)%nat ->
  exists k, 0 <= k /\ qmin <= q - k * step /\
    (forall j, 0 <= j < k -> ~ fits img max_bytes (q - j * step)) /\
    (fits img max_bytes (q - k * step) \/ q - k * step - step < qmin) /\
    save_loop fuel img out_path max_bytes qmin step q fs
    = Some (save img out_path (q - k * step) fs,
            Ok (q - k * step, trial_size img (q - k * step))).
Proof.
  induction fuel as [|fuel IH]; intros q fs Hs Hq Hf.
  { unfold enough_fuel in Hf. lia. }
  cbn [save_loop].
  destruct (Z.leb_spec qmin q) as [_|]; [|lia].
  rewrite stat_after_save.
  destruct (Z.leb_spec (trial_size img q) max_bytes) as [Hfit|Hbig].
  - exists 0. replace (q - 0 * step) with q by lia.
    split; [lia|]. split; [lia|]. split; [intros; lia|]. split; [by left|].
    reflexivity.
  - destruct (Z_lt_le_dec (q - step) qmin) as [Hlast|Hmore].
    + (* the trial at [q] was the last one above the floor *)
      exists 0. replace (q - 0 * step) with q by lia.
      split; [lia|]. split; [lia|]. split; [intros; lia|]. split; [right; lia|].
      destruct fuel as [|fuel]; [unfold enough_fuel in Hf; lia|].
      cbn [save_loop].
      destruct (Z.leb_spec qmin (q - step)); [lia|].
      rewrite stat_after_save.
      replace (q - step + step) with q by lia. reflexivity.
    + destruct (IH (q - step) (save img out_path q fs) Hs Hmore)
        as (k & Hk & Hge & Hbefore & Hstop & Hrun).
      { unfold enough_fuel in *. rewrite div_step_down by lia.
        assert (0 <= (q - qmin) / step - 1).
        { rewrite <- div_step_down by lia. apply Z.div_pos; lia. }
        lia. }
      exists (k + 1).
      replace (q - (k + 1) * step) with (q - step - k * step) by lia.
      split; [lia|]. split; [lia|]. split; [|split].
      * intros j Hj. destruct (Z.eq_dec j 0) as [->|Hne].
        -- replace (q - 0 * step) with q by lia. unfold fits. lia.
        -- replace (q - j * step) with (q - step - (j - 1) * step) by lia.
           apply Hbefore. lia.
      * exact Hstop.
      * rewrite Hrun, save_save. reflexivity.
Qed.

(** The same, with one answer for every sufficient amount of fuel. *)
Lemma save_loop_total max_bytes qmin step q fs :
  0 < step -> qmin <= q ->
  exists k, 0 <= k /\ qmin <= q - k * step /\
    (forall j, 0 <= j < k -> ~ fits img max_bytes (q - j * step)) /\
    (fits img max_bytes (q - k * step) \/ q - k * step - step < qmin) /\
    forall fuel, (enough_fuel q qmin step <= fuel)%nat ->
      save_loop fuel img out_path max_bytes qmin step q fs
      = Some (save img out_path (q - k * step) fs,
              Ok (q - k * step, trial_size img (q - k * step))).
Proof.
  intros Hs Hq.
  destruct (save_loop_scan max_bytes qmin step (enough_fuel q qmin step) q fs Hs Hq)
    as (k & Hk & Hge & Hbefore & Hstop & Hrun); [lia|].
  exists k. do 4 (split; [assumption|]).
  intros fuel Hfuel.
  replace fuel with (enough_fuel q qmin step + (fuel - enough_fuel q qmin step))%nat by lia.
  by apply save_loop_more_fuel.
Qed.

(** When the scan stops at the last trial above the floor, that trial is
    [last_quality]. *)
Lemma last_trial_is_last_quality qmin step q k :
  0 < step -> 0 <= k -> qmin <= q - k * step -> q - k * step - step < qmin ->
  q - k * step = last_quality q qmin step.
Proof.
  intros Hs Hk Hge Hlt. unfold last_quality.
  assert ((q - qmin) / step = k) as ->; [|lia].
  symmetry. apply Z.div_unique with (r := q - qmin - k * step); lia.
Qed.

Lemma last_quality_bounds qs qmin step :
  0 < step -> qmin <= qs ->
  qmin <= last_quality qs qmin step < qmin + step /\
  last_quality qs qmin step <= qs.
Proof.
  intros Hs Hq. unfold last_quality.
  pose proof (Z.div_mod (qs - qmin) step ltac:(lia)) as Hdm.
  pose proof (Z.mod_pos_bound (qs - qmin) step Hs) as Hb.
  assert (0 <= (qs - qmin) / step) by (apply Z.div_pos; lia).
  nia.
Qed.
(** Whatever the step, a run that returns describes the file it leaves.
    The run starts either at a quality not below the floor, or right
    after a trial at [q + step] whose bytes are at the destination. *)
Lemma save_loop_sound max_bytes qmin step fuel : forall q fs fs' q' n,
  save_loop fuel img out_path max_bytes qmin step q fs = Some (fs', Ok (q', n)) ->
  qmin <= q \/ (fs !! out_path = Some (jpeg_bytes img (q + step)) /\ qmin <= q + step) ->
  fs' !! out_path = Some (jpeg_bytes img q')
  /\ n = trial_size img q'
  /\ (forall p, p <> out_path -> fs' !! p = fs !! p)
  /\ exists k, -1 <= k /\ q' = q - k * step /\ qmin <= q' /\ (qmin <= q -> 0 <= k) /\
       forall j, 0 <= j < k -> ~ fits img max_bytes (q - j * step).
Proof.
  induction fuel as [|fuel IH]; intros q fs fs' q' n; [discriminate|].
  cbn [save_loop].
  destruct (Z.leb_spec qmin q) as [Hin|Hout].
  - rewrite stat_after_save.
    destruct (Z.leb_spec (trial_size img q) max_bytes) as [Hfit|Hbig].
    + intros [= <- <- <-] _.
      split; [apply save_lookup|]. split; [reflexivity|].
      split; [intros p Hp; by apply save_other|].
      exists 0. split_and!; intros; lia.
    + intros Hrun _.
      destruct (IH _ _ _ _ _ Hrun) as (Hfile & Hn & Hother & k & Hk & Hq' & Hge & _ & Hbefore).
      { right. replace (q - step + step) with q by lia.
        split; [apply save_lookup|exact Hin]. }
      split; [exact Hfile|]. split; [exact Hn|].
      split; [intros p Hp; rewrite Hother by done; by apply save_other|].
      exists (k + 1). split_and!; try lia.
      intros j Hj. destruct (Z.eq_dec j 0) as [->|Hne].
      * replace (q - 0 * step) with q by lia. unfold fits. lia.
      * replace (q - j * step) with (q - step - (j - 1) * step) by lia.
        apply Hbefore. lia.
  - intros Hrun [Hin|[Hfile Hge]]; [lia|].
    unfold stat_size in Hrun. rewrite Hfile in Hrun.
    injection Hrun as <- <- <-.
    split; [exact Hfile|]. split; [reflexivity|]. split; [done|].
    exists (-1). split_and!; intros; lia.
Qed.

(** A run that returns stopped at a trial that fits, or at the last trial
    above the floor, and it left the files as that trial alone would. *)
Lemma save_loop_stop max_bytes qmin step fuel : forall q fs fs' q' n,
  save_loop fuel img out_path max_bytes qmin step q fs = Some (fs', Ok (q', n)) ->
  qmin <= q ->
  (fits img max_bytes q' \/ q' - step < qmin)
  /\ fs' = save img out_path q' fs.
Proof.
  induction fuel as [|fuel IH]; intros q fs fs' q' n; [discriminate|].
  cbn [save_loop]. intros Hrun Hin. revert Hrun.
  destruct (Z.leb_spec qmin q); [|lia].
  rewrite stat_after_save.
  destruct (Z.leb_spec (trial_size img q) max_bytes) as [Hfit|Hbig].
  - intros [= <- <- <-]. split; [by left|reflexivity].
  - destruct (Z_lt_le_dec (q - step) qmin) as [Hlast|Hmore].
    + destruct fuel as [|fuel]; [discriminate|]. cbn [save_loop].
      destruct (Z.leb_spec qmin (q - step)); [lia|].
      rewrite stat_after_save. intros [= <- <- <-].
      replace (q - step + step) with q by lia. split; [right; lia|reflexivity].
    + intros Hrun. destruct (IH _ _ _ _ _ Hrun Hmore) as [Hstop ->].
      split; [exact Hstop|apply save_save].
Qed.
End EncoderFacts.

(** The sample encoder: the trial at quality [q] has [1000 + 20 q] bytes. *)
Lemma plain_trial_size img q : -50 <= q -> trial_size img q = 1000 + 20 * q.
Proof.
  intros Hq. unfold trial_size. cbn [jpeg_bytes plain_backend].
  rewrite repeat_length. lia.
Qed.

Section EncoderClaims.
Context `{Backend}.
Variables (img : Image) (out_path : string).

(** C1 (amended).  With a positive step and a start not below the floor,
    a scan in which no trial meets the budget returns the quality of its
    last trial, [last_quality]: the lowest value
    [quality_start - k * quality_step] that is not below [quality_min],
    together with the size of that trial, which is the file left at the
    destination.  That quality lies in
    [[quality_min, quality_min + quality_step)] and equals [quality_min]
    exactly when [quality_step] divides [quality_start - quality_min].
    With the defaults 88, 35, 3 it is 37. *)
Theorem save_exhausted_returns_last_trial
    (max_kb quality_start quality_min quality_step : Z) (fs : files) (fuel : nat) :
  0 < quality_step -> quality_min <= quality_start ->
  (forall k, 0 <= k -> quality_min <= quality_start - k * quality_step ->
             ~ fits img (max_kb * 1024) (quality_start - k * quality_step)) ->
  (enough_fuel quality_start quality_min quality_step <= fuel)%nat ->
  let q := last_quality quality_start quality_min quality_step in
  save_jpeg_under_limit fuel img out_path max_kb
    quality_start quality_min quality_step fs
  = Some (save img out_path q fs, Ok (q, trial_size img q))
  /\ quality_min <= q < quality_min + quality_step
  /\ (q = quality_min <-> (quality_start - quality_min) mod quality_step = 0)
  /\ last_quality 88 35 3 = 37.
Proof.
  intros Hs Hq Hnone Hfuel q.
  destruct (last_quality_bounds quality_start quality_min quality_step Hs Hq)
    as [Hbounds _].
  split; [|split; [exact Hbounds|split; [|reflexivity]]].
  - unfold save_jpeg_under_limit.
    destruct (save_loop_scan img out_path (max_kb * 1024) quality_min quality_step
                fuel quality_start fs Hs Hq Hfuel)
      as (k & Hk & Hge & _ & Hstop & Hrun).
    destruct Hstop as [Hfit|Hlast]; [exfalso; by apply (Hnone k)|].
    rewrite Hrun.
    by rewrite (last_trial_is_last_quality quality_min quality_step
                  quality_start k Hs Hk Hge Hlast).
  - subst q. unfold last_quality in *.
    pose proof (Z.div_mod (quality_start - quality_min) quality_step ltac:(lia)).
    pose proof (Z.mod_pos_bound (quality_start - quality_min) quality_step Hs).
    split; intros; nia.
Qed.

(** C3 (amended).  For a start quality not below the floor, every call
    that returns describes the file it leaves.  The files are those
    before the call with the encode at the returned quality written to
    the destination, so the destination holds the bytes encoded at the
    returned quality and no other path changed; the returned size is the
    size of that file; the returned quality is a quality of the scan that
    was really encoded, and every higher trial missed the budget; and the
    returned trial meets the budget unless it is the last one of the
    scan.  With a positive step the call does return, with one answer for
    every sufficient amount of fuel. *)
Theorem save_result_describes_file
    (max_kb quality_start quality_min quality_step : Z) (fs : files) :
  quality_min <= quality_start ->
  (forall fuel fs' q n,
     save_jpeg_under_limit fuel img out_path max_kb
       quality_start quality_min quality_step fs
     = Some (fs', Ok (q, n)) ->
     fs' = save img out_path q fs
     /\ fs' !! out_path = Some (jpeg_bytes img q)
     /\ stat_size fs' out_path = Ok n
     /\ n = trial_size img q
     /\ (exists k, 0 <= k /\ q = quality_start - k * quality_step /\
           quality_min <= q /\
           forall j, 0 <= j < k ->
             ~ fits img (max_kb * 1024) (quality_start - j * quality_step))
     /\ (fits img (max_kb * 1024) q \/ q - quality_step < quality_min)
     /\ (forall p, p <> out_path -> fs' !! p = fs !! p))
  /\ (0 < quality_step ->
      exists q, forall fuel,
        (enough_fuel quality_start quality_min quality_step <= fuel)%nat ->
        save_jpeg_under_limit fuel img out_path max_kb
          quality_start quality_min quality_step fs
        = Some (save img out_path q fs, Ok (q, trial_size img q))).
Proof.
  intros Hq. split.
  - intros fuel fs' q n Hrun. unfold save_jpeg_under_limit in Hrun.
    destruct (save_loop_sound img out_path _ _ _ _ _ _ _ _ _ Hrun (or_introl Hq))
      as (Hfile & Hn & Hother & k & _ & Hk & Hge & Hpos & Hbefore).
    destruct (save_loop_stop img out_path _ _ _ _ _ _ _ _ _ Hrun Hq)
      as [Hstop Hfs].
    split; [exact Hfs|].
    split; [exact Hfile|].
    split; [unfold stat_size; rewrite Hfile; by rewrite Hn|].
    split; [exact Hn|].
    split; [exists k; split_and!; auto|].
    split; [exact Hstop|exact Hother].
  - intros Hs.
    destruct (save_loop_total img out_path (max_kb * 1024) quality_min quality_step
                quality_start fs Hs Hq)
      as (k & _ & _ & _ & _ & Hrun).
    exists (quality_start - k * quality_step).
    exact Hrun.
Qed.

(** C4.  When some quality of the descending scan, not below the floor,
    gives a file within the budget, the call stops at the first such
    quality and returns it with its measured size, which is within the
    budget; the destination holds that trial. *)
Theorem save_returns_first_fit
    (max_kb quality_start quality_min quality_step : Z) (fs : files)
    (k0 : Z) (fuel : nat) :
  0 < quality_step -> 0 <= k0 ->
  quality_min <= quality_start - k0 * quality_step ->
  fits img (max_kb * 1024) (quality_start - k0 * quality_step) ->
  (enough_fuel quality_start quality_min quality_step <= fuel)%nat ->
  exists k, 0 <= k <= k0 /\
    let q := quality_start - k * quality_step in
    fits img (max_kb * 1024) q
    /\ (forall j, 0 <= j < k ->
          ~ fits img (max_kb * 1024) (quality_start - j * quality_step))
    /\ save_jpeg_under_limit fuel img out_path max_kb
         quality_start quality_min quality_step fs
       = Some (save img out_path q fs, Ok (q, trial_size img q))
    /\ trial_size img q <= max_kb * 1024.
Proof.
  intros Hs Hk0 Hge0 Hfit0 Hfuel.
  assert (quality_min <= quality_start) as Hq by nia.
  destruct (save_loop_scan img out_path (max_kb * 1024) quality_min quality_step
              fuel quality_start fs Hs Hq Hfuel)
    as (k & Hk & Hge & Hbefore & Hstop & Hrun).
  assert (k <= k0) as Hle.
  { destruct (Z_le_gt_dec k k0) as [|Hgt]; [assumption|].
    exfalso. apply (Hbefore k0); [lia|assumption]. }
  assert (fits img (max_kb * 1024) (quality_start - k * quality_step)) as Hfit.
  { destruct Hstop as [|Hlast]; [assumption|].
    assert (k = k0) as -> by nia. assumption. }
  exists k. split; [lia|]. cbn zeta.
  split; [exact Hfit|]. split; [exact Hbefore|]. split; [exact Hrun|exact Hfit].
Qed.

(** C10 (amended).  With [quality_start] strictly below [quality_min]
    the loop body never runs and nothing is written: the files are
    unchanged.  The size query on the destination fails when no file is
    there; otherwise the call returns
    [(quality_start + quality_step, size)] for the file that was already
    there. *)
Theorem save_below_floor_writes_nothing
    (max_kb quality_start quality_min quality_step : Z) (fs : files) (fuel : nat) :
  quality_start < quality_min ->
  save_jpeg_under_limit (S fuel) img out_path max_kb
    quality_start quality_min quality_step fs
  = Some (fs, match fs !! out_path with
              | Some content =>
                  Ok (quality_start + quality_step, Z.of_nat (List.length content))
              | None => Raise (FileNotFoundError out_path)
              end).
Proof.
  intros Hlt. unfold save_jpeg_under_limit. cbn [save_loop].
  destruct (Z.leb_spec quality_min quality_start); [lia|].
  unfold stat_size. by destruct (fs !! out_path).
Qed.
End EncoderClaims.

(** ** The size fitter *)

Section FitterFacts.
Context `{Backend}.

Lemma not_known_mode mode :
  ~ known_mode mode ->
  String.eqb mode "exact" = false /\ String.eqb mode "contain" = false /\
  String.eqb mode "cover" = false.
Proof.
  unfold known_mode. intros Hk.
  repeat split; apply String.eqb_neq; intros ->; tauto.
Qed.

Ltac run_fit :=
  unfold resize_to_fit, exif_transpose, convert, resize, new, paste, crop,
    bind, tell, ret, lift, raise, calls, outcome;
  cbn [fst snd app PIL.size].


(** In mode exact a frame with positive sides is always reached. *)
Lemma exact_returns_frame img tw th :
  1 <= tw -> 1 <= th ->
  exists im, outcome (resize_to_fit img (tw, th) "exact") = Ok im
             /\ PIL.size im = (tw, th).
Proof.
  intros Hw Hh. unfold resize_to_fit.
  change ("exact" =? "exact")%string with true.
  run_fit.
  destruct (decide (PIL.size (transposed img) = (tw, th))) as [Heq|Hne]; cbn.
  - eexists. split; [reflexivity|exact Heq].
  - destruct (Z.ltb_spec tw 1); [lia|]. destruct (Z.ltb_spec th 1); [lia|].
    cbn. eexists. split; reflexivity.
Qed.

Lemma contain_agrees img width height :
  agree (outcome (resize_to_fit img (width, height) "contain"))
        (letterbox (normalized img) width height).
Proof.
  unfold letterbox, contain_content_size, letterboxed, normalized, PIL.width, PIL.height.
  unfold resize_to_fit.
  change ("contain" =? "exact")%string with false.
  change ("contain" =? "contain")%string with true.
  run_fit.
  destruct (PIL.size (transposed img)) as [sw sh] eqn:Hsz. cbn [fst snd].
  destruct (int_truediv sw sh) as [sr|]; cbn [rbind fst snd]; [|done].
  destruct (int_truediv width height) as [tr|]; cbn [rbind fst snd]; [|done].
  destruct (float_gt sr tr).
  - destruct (rbind (int_div_float width sr) round) as [nh|]; cbn [rbind fst snd]; [|done].
    destruct (decide ((sw, sh) = (width, nh))) as [Heq|Hne];
      [|destruct ((width <? 1) || (nh <? 1))]; cbn; try done;
      destruct ((width <? 0) || (height <? 0)); cbn; try done;
      simplify_eq; unfold same_image, pasted_px, PIL.width, PIL.height; cbn;
      split_and!; done.
  - destruct (rbind (int_mul_float height sr) round) as [nw|]; cbn [rbind fst snd]; [|done].
    destruct (decide ((sw, sh) = (nw, height))) as [Heq|Hne];
      [|destruct ((nw <? 1) || (height <? 1))]; cbn; try done;
      destruct ((width <? 0) || (height <? 0)); cbn; try done;
      simplify_eq; unfold same_image, pasted_px, PIL.width, PIL.height; cbn;
      split_and!; done.
Qed.

Lemma contain_calls img width height newW newH :
  contain_content_size (PIL.width (normalized img)) (PIL.height (normalized img))
    width height = Ok (newW, newH) ->
  1 <= newW -> 1 <= newH -> 0 <= width -> 0 <= height ->
  calls (resize_to_fit img (width, height) "contain")
  = [CExifTranspose; CConvert "RGB"; CResize (newW, newH);
     CNew "RGB" (width, height) [0; 0; 0];
     CPaste ((width - newW) / 2, (height - newH) / 2)].
Proof.
  unfold contain_content_size, normalized, PIL.width, PIL.height.
  unfold resize_to_fit.
  change ("contain" =? "exact")%string with false.
  change ("contain" =? "contain")%string with true.
  run_fit.
  destruct (PIL.size (transposed img)) as [sw sh] eqn:Hsz. cbn [fst snd].
  destruct (int_truediv sw sh) as [sr|]; cbn [rbind fst snd]; [|done].
  destruct (int_truediv width height) as [tr|]; cbn [rbind fst snd]; [|done].
  intros Hdims Hw Hh Hfw Hfh.
  rewrite Hdims. cbn [fst snd].
  destruct (Z.ltb_spec newW 1); [lia|]. destruct (Z.ltb_spec newH 1); [lia|].
  destruct (Z.ltb_spec width 0); [lia|]. destruct (Z.ltb_spec height 0); [lia|].
  by destruct (decide ((sw, sh) = (newW, newH))).
Qed.

Lemma content_size_example : contain_content_size 1000 500 640 480 = Ok (640, 320).
Proof. vm_compute. reflexivity. Qed.

(** C5.  In mode contain the fitter returns what the letterbox policy
    describes, and fails where it fails: the content size is
    [(width, round(width / srcRatio))] when [srcRatio > tgtRatio] and
    [(round(height * srcRatio), height)] otherwise, the source is
    resized to it and pasted on a black canvas of the frame size at the
    floor-divided centring offsets.  A source that is 1000 by 500 after
    normalization, fitted into 640 by 480, gives a 640 by 320 content
    region pasted at (0, 80): rows 0 to 79 and 400 to 479 are black. *)
Theorem contain_letterboxes img width height :
  let src := normalized img in
  let run := resize_to_fit img (width, height) "contain" in
  agree (outcome run) (letterbox src width height)
  /\ (forall newW newH,
        contain_content_size (PIL.width src) (PIL.height src) width height
        = Ok (newW, newH) ->
        1 <= newW -> 1 <= newH -> 0 <= width -> 0 <= height ->
        calls run
        = [CExifTranspose; CConvert "RGB"; CResize (newW, newH);
           CNew "RGB" (width, height) [0; 0; 0];
           CPaste ((width - newW) / 2, (height - newH) / 2)])
  /\ (PIL.size src = (1000, 500) -> width = 640 -> height = 480 ->
      contain_content_size 1000 500 640 480 = Ok (640, 320)
      /\ calls run
         = [CExifTranspose; CConvert "RGB"; CResize (640, 320);
            CNew "RGB" (640, 480) [0; 0; 0]; CPaste (0, 80)]
      /\ exists im,
           outcome run = Ok im
           /\ PIL.size im = (640, 480)
           /\ (forall x y, 0 <= x < 640 -> 0 <= y < 80 \/ 400 <= y < 480 ->
                 px im x y = [0; 0; 0])
           /\ (forall x y, 0 <= x < 640 -> 80 <= y < 400 ->
                 px im x y
                 = lanczos_px (1000, 500) (px src) (640, 320) x (y - 80))).
Proof.
  intros src run.
  pose proof (contain_agrees img width height) as Hagree.
  split; [exact Hagree|]. split; [apply contain_calls|].
  intros Hsz -> ->. split; [exact content_size_example|].
  split.
  { subst run. rewrite (contain_calls img 640 480 640 320); try lia; [done|].
    fold src. unfold PIL.width, PIL.height. rewrite Hsz. exact content_size_example. }
  fold src run in Hagree.
  remember (outcome run) as res eqn:Hres.
  unfold letterbox in Hagree. unfold PIL.width at 1, PIL.height at 1 in Hagree.
  rewrite Hsz in Hagree. cbn [fst snd] in Hagree.
  rewrite content_size_example in Hagree. cbn [rbind] in Hagree.
  unfold resize, new, bind, tell, ret, raise, outcome in Hagree.
  rewrite Hsz in Hagree.
  destruct (decide ((1000, 500) = (640, 320))) as [Hbad|_]; [discriminate|].
  cbn in Hagree.
  destruct res as [im|]; [|done]. symmetry in Hres.
  destruct Hagree as (_ & Hsize & _ & Hpx).
  exists im. split; [done|]. split; [exact Hsize|].
  split; intros x y Hx Hy; rewrite Hpx;
    unfold letterboxed, PIL.width, PIL.height; cbn [px PIL.size fst snd];
    change ((640 - 640) / 2) with 0; change ((480 - 320) / 2) with 80;
    change (80 + 320) with 400; change (0 + 640) with 640.
  - destruct (Z.leb_spec 80 y), (Z.ltb_spec y 400); try lia;
      by rewrite ?andb_false_r.
  - destruct (Z.leb_spec 0 x), (Z.ltb_spec x 640), (Z.leb_spec 80 y),
      (Z.ltb_spec y 400); try lia.
    cbn. by rewrite Z.sub_0_r.
Qed.
(** C6 (amended).  For a mode outside cover, contain and exact the
    fitter raises, and it does so after the orientation transpose and
    the RGB conversion and before anything else: the transpose and the
    conversion are the only library calls made, no resampling, canvas,
    paste or crop.  When the two aspect ratios can be computed the
    exception is the unknown-mode [ValueError]. *)
Theorem unknown_mode_fails_after_normalizing img tw th mode :
  ~ known_mode mode ->
  let run := resize_to_fit img (tw, th) mode in
  calls run = [CExifTranspose; CConvert "RGB"]
  /\ (exists e, outcome run = Raise e)
  /\ (is_ok (int_truediv (width (normalized img)) (height (normalized img))) = true ->
      is_ok (int_truediv tw th) = true ->
      outcome run = Raise (ValueError ("Unknown resize mode: " ++ mode))).
Proof.
  intros Hk run. subst run.
  destruct (not_known_mode mode Hk) as (He & Hc & Hv).
  unfold width, height, normalized. cbn [PIL.size].
  run_fit. rewrite He, Hc, Hv.
  destruct (PIL.size (transposed img)) as [sw sh]. cbn [fst snd].
  destruct (int_truediv sw sh); cbn;
    [|split_and!; [done|by eexists|intros; discriminate]].
  destruct (int_truediv tw th); cbn;
    split_and!; try done; try (by eexists); intros; discriminate.
Qed.

(** C2, at the input where the code departs from it.  A source of 4000
    by 2 fitted into 640 by 480 in mode contain: the content height is
    [round(640 / 2000.0) = 0], the resize to 640 by 0 is refused, and no
    image is returned. *)
Theorem contain_thin_source_raises :
  resize_to_fit (gradient 4000 2) (640, 480) "contain"
  = ([CExifTranspose; CConvert "RGB"; CResize (640, 0)],
     Raise (ValueError "height and width must be > 0")).
Proof. vm_compute. reflexivity. Qed.
End FitterFacts.

(** ** The overlay stage *)

Section OverlayFacts.
Context `{Backend}.

Lemma deref_some (st : store) r im : st !! r = Some im -> deref r st = (st, Ok im).
Proof. intros Hr. unfold deref. by rewrite Hr. Qed.

Lemma copy_run (st : store) r im :
  st !! r = Some im ->
  copy r st = (<[fresh (dom st) := im]> st, Ok (fresh (dom st))).
Proof. intros Hr. unfold copy, hbind. by rewrite (deref_some st r im Hr). Qed.

Lemma fresh_ref_unused (st : store) : st !! fresh (dom st) = None.
Proof. apply not_elem_of_dom. apply is_fresh. Qed.

Lemma draw_text_run (st : store) r im xy text f fill :
  st !! r = Some im ->
  draw_text r xy text f fill st
  = (<[r := with_px im (text_px f text xy fill im)]> st, Ok tt).
Proof. intros Hr. unfold draw_text, hbind. by rewrite (deref_some st r im Hr). Qed.

(** The drawing loop changes the one object it draws on, into [drawn]. *)
Lemma draw_lines_run r x items : forall (st : store) im y,
  st !! r = Some im ->
  draw_lines r x y items st = (<[r := drawn im x y items]> st, Ok tt).
Proof.
  induction items as [|[[text f] h] rest IH]; intros st im y Hr.
  - cbn. by rewrite insert_id.
  - cbn [draw_lines drawn]. unfold hbind at 1.
    rewrite (draw_text_run st r im _ text f _ Hr).
    unfold hbind at 1.
    erewrite draw_text_run by apply lookup_insert_eq.
    rewrite insert_insert_eq.
    erewrite IH by apply lookup_insert_eq.
    by rewrite insert_insert_eq.
Qed.

Lemma measure_lengths lines ws hs :
  measure lines = (ws, hs) ->
  List.length ws = List.length lines /\ List.length hs = List.length lines.
Proof.
  revert ws hs. induction lines as [|[text f] rest IH]; intros ws hs.
  - cbn. by intros [= <- <-].
  - cbn [measure]. destruct (textbbox text f) as [[[x0 y0] x1] y1].
    destruct (measure rest) as [ws' hs'].
    intros [= <- <-]. destruct (IH ws' hs' eq_refl). cbn. lia.
Qed.

(** Each measured height is the height of the line's bounding box. *)
Lemma measure_heights lines ws hs :
  measure lines = (ws, hs) ->
  hs = map (fun '(text, f) => let '(_, y0, _, y1) := textbbox text f in y1 - y0) lines.
Proof.
  revert ws hs. induction lines as [|[text f] rest IH]; intros ws hs.
  - cbn. by intros [= <- <-].
  - cbn [measure map]. destruct (textbbox text f) as [[[x0 y0] x1] y1].
    destruct (measure rest) as [ws' hs'].
    intros [= <- <-]. by rewrite (IH ws' hs' eq_refl).
Qed.

Lemma split_nonempty sep s : split sep s <> [].
Proof.
  destruct s as [|c r]; cbn; [done|].
  destruct (Ascii.eqb c sep); [done|]. by destruct (split sep r).
Qed.

(** C8.  With an empty identity text and an empty caption the overlay
    stage returns the reference it was given and leaves the store as it
    is: nothing is drawn and no object is created. *)
Theorem add_watermark_empty_is_noop (st : store) (img : ref) (margin : Z) :
  add_watermark img "" "" margin st = (st, Ok img).
Proof.
  unfold add_watermark. cbn [truthy negb andb].
  unfold hret. reflexivity.
Qed.

Lemma overlay_texts_nonempty identity_text caption_text :
  identity_text <> "" \/ caption_text <> "" ->
  overlay_texts identity_text caption_text <> [].
Proof.
  intros Htext Hnil. unfold overlay_texts in Hnil.
  apply app_eq_nil in Hnil as [Hid Hcap].
  destruct identity_text as [|c r].
  - destruct caption_text; [|discriminate Hcap].
    destruct Htext as [Hne|Hne]; apply Hne; reflexivity.
  - cbn [truthy] in Hid. by apply split_nonempty in Hid.
Qed.

Lemma overlay_lines_texts identity_text caption_text (fm fc : font) :
  map fst
    ((if truthy caption_text
      then (((if truthy identity_text
              then ([] ++ map (fun line => (line, fm)) (split "|" identity_text))
              else []) ++ [(caption_text, fc)]))
      else (if truthy identity_text
            then ([] ++ map (fun line => (line, fm)) (split "|" identity_text))
            else []))%list)
  = overlay_texts identity_text caption_text.
Proof.
  unfold overlay_texts.
  destruct (truthy identity_text), (truthy caption_text); cbn [app];
    rewrite ?map_app, ?map_map; cbn [map fst]; rewrite ?map_id, ?app_nil_r; done.
Qed.

(** C9.  With a non-empty identity text or a non-empty caption, the
    overlay stage creates a new object, a copy of the input image with
    the block drawn on it, and returns the reference of that object.
    Every object that was in the store before, the input image among
    them, is as it was.  The block holds the identity lines and then the
    caption, each with the height of its bounding box, and starts at
    [y = height - total_height - margin]. *)
Theorem add_watermark_draws_on_copy (st : store) (img : ref) (im : Image)
    (identity_text caption_text : string) (margin : Z) :
  st !! img = Some im ->
  identity_text <> "" \/ caption_text <> "" ->
  exists (img' : ref) (items : list ((string * font) * Z)),
    let total_height :=
      sum_list (map snd items) + (Z.of_nat (List.length items) - 1) * 4 in
    let y := height im - total_height - margin in
    add_watermark img identity_text caption_text margin st
    = (<[img' := drawn im margin y items]> st, Ok img')
    /\ st !! img' = None
    /\ img' <> img
    /\ (forall r, r <> img' ->
          <[img' := drawn im margin y items]> st !! r = st !! r)
    /\ <[img' := drawn im margin y items]> st !! img = Some im
    /\ map (fun item => fst (fst item)) items
       = overlay_texts identity_text caption_text
    /\ Forall (fun '((text, f), h) =>
                 let '(_, y0, _, y1) := textbbox text f in h = y1 - y0) items.
Proof.
  intros Himg Htext.
  assert (negb (truthy identity_text) && negb (truthy caption_text) = false) as Hgo.
  { destruct identity_text, caption_text; cbn; try reflexivity.
    destruct Htext as [Hne|Hne]; exfalso; apply Hne; reflexivity. }
  unfold add_watermark. rewrite Hgo.
  unfold hbind at 1. rewrite (copy_run st img im Himg).
  set (img' := fresh (dom st)).
  destruct (match rbind (truetype "C:/Windows/Fonts/arial.ttf" 20) _ with
            | Ok fonts => fonts
            | Raise _ => (load_default, load_default)
            end) as [font_main font_caption].
  set (lines := if truthy caption_text then _ else _).
  destruct (measure lines) as [line_widths line_heights] eqn:Hmeasure.
  destruct (measure_lengths _ _ _ Hmeasure) as [Hlw Hlh].
  pose proof (measure_heights _ _ _ Hmeasure) as Hheights.
  pose proof (overlay_lines_texts identity_text caption_text font_main font_caption)
    as Htexts. fold lines in Htexts.
  assert (lines <> []) as Hlines.
  { intros Hnil. rewrite Hnil in Htexts. symmetry in Htexts.
    by apply (overlay_texts_nonempty identity_text caption_text) in Htexts. }
  destruct line_widths as [|w0 line_widths];
    [destruct lines; [done|discriminate Hlw]|].
  assert (st !! img' = None) as Hfresh by apply fresh_ref_unused.
  assert (img' <> img) as Hdiff by (intros ->; congruence).
  exists img', (zip lines line_heights). cbn zeta.
  assert (map snd (zip lines line_heights) = line_heights) as Hsnd
    by (apply snd_zip; lia).
  assert (List.length (zip lines line_heights) = List.length lines) as Hlen
    by (rewrite length_zip_with; lia).
  rewrite Hsnd, Hlen.
  split.
  { cbn [max_list]. unfold hbind at 1, hlift. cbn beta iota.
    unfold hbind at 1.
    rewrite (deref_some (<[img' := im]> st) img' im) by apply lookup_insert_eq.
    unfold hbind, hret.
    rewrite (draw_lines_run img' margin _ (<[img' := im]> st) im)
      by apply lookup_insert_eq.
    by rewrite insert_insert_eq. }
  split; [exact Hfresh|]. split; [exact Hdiff|].
  split; [intros r Hr; by rewrite lookup_insert_ne|].
  split; [by rewrite lookup_insert_ne|].
  split.
  - rewrite <- Htexts. rewrite <- (fst_zip lines line_heights) at 2 by lia.
    by rewrite map_map.
  - rewrite Hheights. clear. induction lines as [|[text f] rest IH]; cbn; [constructor|].
    constructor; [|exact IH]. by destruct (textbbox text f) as [[[x0 y0] x1] y1].
Qed.
End OverlayFacts.

(** ** Size validation *)

(** The size check of the graphical front end lets only positive sizes
    through. *)
Lemma gui_parse_size_positive size_var w h :
  App._parse_size size_var = Ok (w, h) -> 0 < w /\ 0 < h.
Proof.
  unfold App._parse_size.
  destruct (negb (contains "x" (lower (strip size_var)))); [discriminate|].
  destruct (split1 "x" (lower (strip size_var))) as [|w_s [|h_s [|? ?]]];
    try discriminate.
  destruct (int_of_str w_s) as [w'|]; [|discriminate].
  destruct (int_of_str h_s) as [h'|]; [|discriminate].
  cbn [rbind].
  destruct (Z.leb_spec w' 0), (Z.leb_spec h' 0); cbn [orb]; try discriminate.
  intros [= <- <-]. lia.
Qed.

(** C7, at the inputs where the code departs from it.  The size parser of
    the command line accepts [0x480] and [-640x480] and returns the pairs
    [(0, 480)] and [(-640, 480)]: nothing fails at configuration time.
    The size check of the graphical front end rejects both texts.  With
    the accepted frame [(0, 480)] and the default mode the size fitter
    then transposes, converts, resamples and crops, and returns an image
    that is 0 by 480. *)
Theorem parse_size_accepts_nonpositive :
  parse_size "0x480" = Ok (0, 480)
  /\ parse_size "-640x480" = Ok (-640, 480)
  /\ App._parse_size "0x480"
     = Raise (ValueError "Target Size must be positive numbers")
  /\ App._parse_size "-640x480"
     = Raise (ValueError "Target Size must be positive numbers")
  /\ (let run := resize_to_fit (gradient 800 600) (0, 480) "cover" in
      calls run = [CExifTranspose; CConvert "RGB"; CResize (640, 480);
                   CCrop (320, 0, 320, 480)]
      /\ exists im, outcome run = Ok im /\ PIL.size im = (0, 480)).
Proof.
  do 4 (split; [vm_compute; reflexivity|]).
  split; [vm_compute; reflexivity|].
  eexists. split; [vm_compute; reflexivity|reflexivity].
Qed.

(** ** The statements at concrete inputs *)

Lemma save_exhausted_witness :
  (0 < 3 /\ 35 <= 88) /\
  save_jpeg_under_limit 19 (gradient 640 480) "OUT/a.jpg" 1 88 35 3 ∅
  = Some (save (gradient 640 480) "OUT/a.jpg" 37 ∅, Ok (37, 1740)).
Proof.
  split; [lia|].
  destruct (save_exhausted_returns_last_trial (gradient 640 480) "OUT/a.jpg"
              1 88 35 3 ∅ 19) as [Hrun _].
  - lia.
  - lia.
  - intros k Hk Hge. unfold fits. rewrite plain_trial_size; lia.
  - vm_compute. lia.
  - exact Hrun.
Defined.

(** C1, as stated, fails: with the defaults 88, 35, 3 and a budget that no
    trial meets, the scan is 88, 85, ..., 37 and the call returns quality
    37, not the floor 35. *)
Lemma save_defaults_exhausted_not_floor :
  (forall q, 35 <= q <= 88 -> ~ fits (gradient 640 480) (1 * 1024) q) /\
  save_jpeg_under_limit 19 (gradient 640 480) "OUT/a.jpg" 1 88 35 3 ∅
  = Some (save (gradient 640 480) "OUT/a.jpg" 37 ∅, Ok (37, 1740)) /\
  37 <> 35.
Proof.
  split; [|split; [vm_compute; reflexivity|lia]].
  intros q Hq. unfold fits. rewrite plain_trial_size; lia.
Qed.

Lemma save_result_describes_file_witness :
  35 <= 88 /\
  exists q,
    save_jpeg_under_limit 19 (gradient 640 480) "OUT/a.jpg" 2 88 35 3 ∅
    = Some (save (gradient 640 480) "OUT/a.jpg" q ∅,
            Ok (q, trial_size (gradient 640 480) q))
    /\ (fits (gradient 640 480) (2 * 1024) q \/ q - 3 < 35).
Proof.
  split; [lia|].
  destruct (save_result_describes_file (gradient 640 480) "OUT/a.jpg" 2 88 35 3 ∅)
    as [Hsound Htotal]; [lia|].
  destruct Htotal as (q & Hrun); [lia|].
  assert (enough_fuel 88 35 3 <= 19)%nat as Hfuel by (vm_compute; lia).
  exists q. split; [exact (Hrun 19%nat Hfuel)|].
  exact (proj1 (proj2 (proj2 (proj2 (proj2 (proj2
           (Hsound 19%nat _ q _ (Hrun 19%nat Hfuel)))))))).
Defined.

(** C3, as stated, fails: with start 30 below the floor 35, step 3 and a
    one-byte file already at the destination, the call encodes nothing
    and returns quality 33 with size 1; the file at the destination is
    the old one, not an encode at quality 33, which has 1660 bytes. *)
Lemma save_below_floor_describes_old_file :
  let old : files := {["OUT/a.jpg" := [Byte.x00]]} in
  save_jpeg_under_limit 4 (gradient 640 480) "OUT/a.jpg" 200 30 35 3 old
  = Some (old, Ok (33, 1))
  /\ old !! "OUT/a.jpg" <> Some (jpeg_bytes (gradient 640 480) 33)
  /\ trial_size (gradient 640 480) 33 = 1660
  /\ 1 <> 1660.
Proof.
  intros old. split; [vm_compute; reflexivity|].
  split; [|split; [vm_compute; reflexivity|lia]].
  intros Hsame. apply (f_equal (fmap (M := option) (@List.length Byte.byte))) in Hsame.
  vm_compute in Hsame. discriminate Hsame.
Qed.

Lemma save_returns_first_fit_witness :
  fits (gradient 640 480) (2 * 1024) (88 - 12 * 3) /\
  exists k, 0 <= k <= 12 /\
    save_jpeg_under_limit 19 (gradient 640 480) "OUT/a.jpg" 2 88 35 3 ∅
    = Some (save (gradient 640 480) "OUT/a.jpg" (88 - k * 3) ∅,
            Ok (88 - k * 3, trial_size (gradient 640 480) (88 - k * 3))).
Proof.
  assert (fits (gradient 640 480) (2 * 1024) (88 - 12 * 3)) as Hfit.
  { unfold fits. rewrite plain_trial_size; lia. }
  split; [exact Hfit|].
  destruct (save_returns_first_fit (gradient 640 480) "OUT/a.jpg" 2 88 35 3 ∅ 12 19)
    as (k & Hk & _ & _ & Hrun & _); [lia|lia|lia|exact Hfit|vm_compute; lia|].
  exists k. split; [exact Hk|exact Hrun].
Defined.

Lemma save_below_floor_witness :
  30 < 35 /\
  save_jpeg_under_limit 1 (gradient 640 480) "OUT/a.jpg" 200 30 35 3
    {["OUT/a.jpg" := [Byte.x00]]}
  = Some ({["OUT/a.jpg" := [Byte.x00]]}, Ok (33, 1)).
Proof.
  split; [lia|].
  rewrite (save_below_floor_writes_nothing (gradient 640 480) "OUT/a.jpg"
             200 30 35 3 {["OUT/a.jpg" := [Byte.x00]]} 0); [|lia].
  reflexivity.
Defined.

(** C10, as stated, fails: with start 30 below the floor 35, step 3 and a
    one-byte file already at the destination, the call returns quality 33
    (start plus step), not the start 30. *)
Lemma save_below_floor_not_start :
  30 < 35 /\
  save_jpeg_under_limit 4 (gradient 640 480) "OUT/a.jpg" 200 30 35 3
    {["OUT/a.jpg" := [Byte.x00]]}
  = Some ({["OUT/a.jpg" := [Byte.x00]]}, Ok (33, 1)) /\
  (33, 1) <> (30, 1).
Proof. split; [lia|]. split; [vm_compute; reflexivity|congruence]. Qed.

Lemma contain_letterboxes_witness :
  PIL.size (normalized (gradient 1000 500)) = (1000, 500) /\
  calls (resize_to_fit (gradient 1000 500) (640, 480) "contain")
  = [CExifTranspose; CConvert "RGB"; CResize (640, 320);
     CNew "RGB" (640, 480) [0; 0; 0]; CPaste (0, 80)] /\
  exists im, outcome (resize_to_fit (gradient 1000 500) (640, 480) "contain") = Ok im
             /\ PIL.size im = (640, 480).
Proof.
  destruct (contain_letterboxes (gradient 1000 500) 640 480) as (_ & Hcalls & Hex).
  split; [reflexivity|]. split.
  - apply (Hcalls 640 320); [vm_compute; reflexivity|lia..].
  - destruct Hex as (_ & _ & im & Hout & Hsize & _); [reflexivity..|].
    exists im. split; assumption.
Defined.

Lemma stretch_is_unknown : ~ known_mode "stretch".
Proof. intros [Hm|[Hm|Hm]]; discriminate Hm. Defined.

Lemma unknown_mode_witness :
  ~ known_mode "stretch" /\
  calls (resize_to_fit (gradient 4000 3000) (640, 480) "stretch")
  = [CExifTranspose; CConvert "RGB"] /\
  outcome (resize_to_fit (gradient 4000 3000) (640, 480) "stretch")
  = Raise (ValueError "Unknown resize mode: stretch").
Proof.
  destruct (unknown_mode_fails_after_normalizing (gradient 4000 3000) 640 480
              "stretch" stretch_is_unknown) as (Hcalls & _ & Hout).
  split; [exact stretch_is_unknown|]. split; [exact Hcalls|].
  apply Hout; vm_compute; reflexivity.
Defined.

(** C6, as stated, fails: for the mode [stretch] the unknown-mode error
    comes after the orientation transpose and the RGB conversion have
    been made. *)
Lemma unknown_mode_after_pixel_work :
  let run := resize_to_fit (gradient 4000 3000) (640, 480) "stretch" in
  ~ known_mode "stretch"
  /\ outcome run = Raise (ValueError "Unknown resize mode: stretch")
  /\ calls run = [CExifTranspose; CConvert "RGB"]
  /\ calls run <> [].
Proof.
  split; [exact stretch_is_unknown|].
  split; [vm_compute; reflexivity|]. split; [vm_compute; reflexivity|].
  vm_compute. discriminate.
Qed.

Lemma add_watermark_witness :
  let st : store := {[1%positive := gradient 640 480]} in
  st !! 1%positive = Some (gradient 640 480) /\
  exists img' st',
    add_watermark 1%positive "K0PRA|Parker, Colorado" "" 14 st = (st', Ok img')
    /\ img' <> 1%positive
    /\ st' !! 1%positive = Some (gradient 640 480).
Proof.
  intros st.
  destruct (add_watermark_draws_on_copy st 1%positive (gradient 640 480)
              "K0PRA|Parker, Colorado" "" 14)
    as (img' & items & Hrun & _ & Hdiff & _ & Hsame & _);
    [reflexivity|left; discriminate|].
  split; [reflexivity|].
  exists img'. eexists. split; [exact Hrun|]. split; [exact Hdiff|exact Hsame].
Defined.

(** ** Names *)

Section StringFacts.
Local Abbreviation rpartition := Pathlib.rpartition.

Lemma append_cons c a b : String c a ++ b = String c (a ++ b).
Proof. reflexivity. Qed.

Lemma append_nil a : a ++ "" = a.
Proof. induction a as [|c a IH]; [reflexivity|]. by rewrite append_cons, IH. Qed.

Lemma contains_app sep a b :
  contains sep (a ++ b) = contains sep a || contains sep b.
Proof.
  induction a as [|c a IH]; [reflexivity|].
  rewrite append_cons. cbn [contains].
  destruct (Ascii.eqb c sep); [reflexivity|exact IH].
Qed.

Lemma rpartition_none sep s : rpartition sep s = None <-> contains sep s = false.
Proof.
  induction s as [|c s IH]; cbn; [tauto|].
  destruct (rpartition sep s) as [[a b]|].
  - destruct (Ascii.eqb c sep); [split; discriminate|].
    split; [discriminate|]. intros Hc. apply IH in Hc. discriminate.
  - destruct (Ascii.eqb c sep); [split; discriminate|].
    split; [intros _; by apply IH|reflexivity].
Qed.

(** What [rpartition] returns is a cut of the text at a separator, and no
    separator comes after it. *)
Lemma rpartition_some sep s a b :
  rpartition sep s = Some (a, b) ->
  s = a ++ String sep b /\ contains sep b = false.
Proof.
  revert a b. induction s as [|c s IH]; cbn; intros a b; [discriminate|].
  destruct (rpartition sep s) as [[a' b']|] eqn:Hr.
  - intros [= <- <-]. destruct (IH a' b' eq_refl) as [-> Hb]. by split.
  - destruct (Ascii.eqb_spec c sep) as [->|]; [|discriminate].
    intros [= <- <-]. split; [reflexivity|]. by apply rpartition_none.
Qed.

Lemma rpartition_app sep a b :
  contains sep b = false -> rpartition sep (a ++ String sep b) = Some (a, b).
Proof.
  intros Hb. induction a as [|c a IH].
  - change ("" ++ String sep b) with (String sep b). cbn [rpartition].
    apply rpartition_none in Hb. rewrite Hb. by rewrite Ascii.eqb_refl.
  - rewrite append_cons. cbn [rpartition]. by rewrite IH.
Qed.

Lemma truthy_app_l a b : truthy a = true -> truthy (a ++ b) = true.
Proof. by destruct a. Qed.

Lemma truthy_true s : truthy s = true <-> s <> "".
Proof. destruct s; cbn; split; congruence. Qed.

(** The stem and the suffix are a cut of the name. *)
Lemma stem_suffix p : Pathlib.stem p ++ Pathlib.suffix p = Pathlib.name p.
Proof.
  unfold Pathlib.stem, Pathlib.suffix.
  destruct (rpartition "." (Pathlib.name p)) as [[a b]|] eqn:Hr.
  - destruct (rpartition_some _ _ _ _ Hr) as [Hcut _].
    destruct (truthy a && truthy b); [by rewrite Hcut|apply append_nil].
  - apply append_nil.
Qed.

Lemma stem_nonempty p : Pathlib.name p <> "" -> Pathlib.stem p <> "".
Proof.
  intros Hn. unfold Pathlib.stem.
  destruct (rpartition "." (Pathlib.name p)) as [[a b]|]; [|exact Hn].
  destruct (truthy a) eqn:Ha; cbn [andb]; [|exact Hn].
  destruct (truthy b); [by apply truthy_true|exact Hn].
Qed.

Lemma append_assoc a b c : (a ++ b) ++ c = a ++ (b ++ c).
Proof.
  induction a as [|x a IH]; [reflexivity|]. by rewrite !append_cons, IH.
Qed.

Lemma lower_char_idem c : lower_char (lower_char c) = lower_char c.
Proof. by destruct c as [[] [] [] [] [] [] [] []]. Qed.

Lemma lower_char_slash c : Ascii.eqb (lower_char c) "/" = Ascii.eqb c "/".
Proof. by destruct c as [[] [] [] [] [] [] [] []]. Qed.

Lemma lower_char_dot c : Ascii.eqb (lower_char c) "." = Ascii.eqb c ".".
Proof. by destruct c as [[] [] [] [] [] [] [] []]. Qed.

Lemma lower_idem s : lower (lower s) = lower s.
Proof.
  induction s as [|c s IH]; [reflexivity|].
  cbn [lower]. by rewrite lower_char_idem, IH.
Qed.

Lemma truthy_lower s : truthy (lower s) = truthy s.
Proof. by destruct s. Qed.

Lemma rpartition_lower sep s :
  (forall c, Ascii.eqb (lower_char c) sep = Ascii.eqb c sep) ->
  rpartition sep (lower s)
  = option_map (fun '(a, b) => (lower a, lower b)) (rpartition sep s).
Proof.
  intros Hsep. induction s as [|c s IH]; [reflexivity|].
  cbn [lower Pathlib.rpartition]. rewrite IH, Hsep.
  destruct (rpartition sep s) as [[a b]|]; cbn [option_map]; [reflexivity|].
  by destruct (Ascii.eqb c sep).
Qed.

Lemma name_lower p : Pathlib.name (lower p) = lower (Pathlib.name p).
Proof.
  unfold Pathlib.name. rewrite (rpartition_lower "/" p lower_char_slash).
  by destruct (rpartition "/" p) as [[a b]|].
Qed.

Lemma suffix_lower p : Pathlib.suffix (lower p) = lower (Pathlib.suffix p).
Proof.
  unfold Pathlib.suffix. rewrite name_lower.
  rewrite (rpartition_lower "." _ lower_char_dot).
  destruct (rpartition "." (Pathlib.name p)) as [[a b]|]; cbn [option_map];
    [|reflexivity].
  rewrite !truthy_lower. by destruct (truthy a && truthy b).
Qed.

(** X1.  Whether a path counts as an image file does not depend on the
    letter case of the path: the test gives the same answer on the path
    in lower case. *)
Theorem is_image_file_ignores_case p : is_image_file (lower p) = is_image_file p.
Proof.
  unfold is_image_file. by rewrite suffix_lower, lower_idem.
Qed.

Lemma bare_app a b : bare (a ++ b) = bare a && bare b.
Proof.
  unfold bare. rewrite !contains_app.
  by destruct (contains "/" a), (contains "/" b), (contains backslash a),
    (contains backslash b), (contains ":" a), (contains ":" b).
Qed.

Lemma bare_no_slash s : bare s = true -> contains "/" s = false.
Proof. unfold bare. by destruct (contains "/" s). Qed.

Lemma name_of_component s : contains "/" s = false -> Pathlib.name s = s.
Proof.
  intros Hs. unfold Pathlib.name. apply rpartition_none in Hs. by rewrite Hs.
Qed.

Lemma stem_of_component s : s <> "" -> bare s = true ->
  Pathlib.stem s <> "" /\ bare (Pathlib.stem s) = true.
Proof.
  intros Hne Hs.
  pose proof (name_of_component s (bare_no_slash s Hs)) as Hname.
  split; [apply stem_nonempty; by rewrite Hname|].
  pose proof (stem_suffix s) as Hcut. rewrite Hname in Hcut.
  rewrite <- Hcut, bare_app in Hs. by apply andb_true_iff in Hs as [Hstem _].
Qed.

(** The part of an output name before [.jpg]. *)
Lemma build_output_name_body in_path prefix suffix :
  in_path <> "" -> bare in_path = true ->
  bare (strip prefix) = true -> bare (strip suffix) = true ->
  exists body, build_output_name in_path prefix suffix = body ++ ".jpg"
               /\ body <> "" /\ bare body = true.
Proof.
  intros Hn Hin Hp Hs. unfold build_output_name.
  destruct (stem_of_component in_path Hn Hin) as [Hstem Hbare].
  eexists. split; [reflexivity|].
  destruct (truthy (strip prefix)) eqn:Tp, (truthy (strip suffix)) eqn:Ts;
    rewrite ?bare_app, ?Hp, ?Hs, ?Hbare; (split; [|reflexivity]).
  - apply truthy_true. apply truthy_app_l. by apply truthy_app_l.
  - apply truthy_true. by apply truthy_app_l.
  - apply truthy_true. apply truthy_app_l. by apply truthy_true.
  - exact Hstem.
Qed.

(** X2.  The name built for an input is an image file name again.  For an
    input named by a single component that is not made of dots only, and
    a prefix and a suffix that, stripped, hold no slash, backslash or
    colon, the output name is a single component for both flavours of
    paths, its suffix is [.jpg], and [is_image_file] accepts it: a second
    run over the output directory would take the outputs as inputs. *)
Theorem output_name_is_image_file in_path prefix suffix :
  dots in_path = false -> bare in_path = true ->
  bare (strip prefix) = true -> bare (strip suffix) = true ->
  let out_name := build_output_name in_path prefix suffix in
  bare out_name = true
  /\ Pathlib.name out_name = out_name
  /\ Pathlib.suffix out_name = ".jpg"
  /\ is_image_file out_name = true.
Proof.
  intros Hdots Hin Hp Hs out_name.
  assert (in_path <> "") as Hn by (by intros ->).
  destruct (build_output_name_body in_path prefix suffix Hn Hin Hp Hs)
    as (body & Hbody & Hne & Hbare).
  assert (bare out_name = true) as Hout.
  { subst out_name. by rewrite Hbody, bare_app, Hbare. }
  assert (Pathlib.name out_name = out_name) as Hname
    by (apply name_of_component; by apply bare_no_slash).
  assert (Pathlib.suffix out_name = ".jpg") as Hsuffix.
  { unfold Pathlib.suffix. rewrite Hname. subst out_name. rewrite Hbody.
    change (body ++ ".jpg") with (body ++ String "." "jpg").
    rewrite rpartition_app by reflexivity.
    apply truthy_true in Hne. by rewrite Hne. }
  split; [exact Hout|]. split; [exact Hname|]. split; [exact Hsuffix|].
  unfold is_image_file. by rewrite Hsuffix.
Qed.

Lemma lstrip_blank s : blank s = true -> lstrip s = "".
Proof.
  induction s as [|c s IH]; [reflexivity|]. cbn [blank lstrip].
  intros [Hc Hs]%andb_true_iff. rewrite Hc. by apply IH.
Qed.

Lemma strip_blank s : blank s = true -> strip s = "".
Proof. intros Hs. unfold strip. by rewrite lstrip_blank. Qed.

(** X3.  A prefix and a suffix made of white space only are ignored: the
    output name is the stem of the input followed by [.jpg]. *)
Theorem blank_affixes_are_ignored in_path prefix suffix :
  blank prefix = true -> blank suffix = true ->
  build_output_name in_path prefix suffix = Pathlib.stem in_path ++ ".jpg".
Proof.
  intros Hp Hs. unfold build_output_name.
  by rewrite (strip_blank prefix Hp), (strip_blank suffix Hs).
Qed.

Lemma stem_of_extended base ext :
  Pathlib.name base <> "" -> plain_extension ext = true ->
  Pathlib.stem (base ++ "." ++ ext) = Pathlib.name base.
Proof.
  intros Hn [[Hne Hdot%negb_true_iff]%andb_true_iff Hslash%negb_true_iff]%andb_true_iff.
  assert (Pathlib.name (base ++ "." ++ ext) = Pathlib.name base ++ String "." ext)
    as Hname.
  { unfold Pathlib.name at 1 2.
    destruct (rpartition "/" base) as [[a b]|] eqn:Hb.
    - destruct (rpartition_some _ _ _ _ Hb) as [-> Hnob].
      rewrite append_assoc.
      change (String "/" b ++ "." ++ ext) with (String "/" (b ++ String "." ext)).
      rewrite rpartition_app; [reflexivity|].
      rewrite contains_app, Hnob. cbn [contains orb]. exact Hslash.
    - apply rpartition_none in Hb.
      assert (contains "/" (base ++ "." ++ ext) = false) as Hnone.
      { rewrite contains_app, Hb. cbn [orb]. exact Hslash. }
      apply rpartition_none in Hnone. by rewrite Hnone. }
  unfold Pathlib.stem. rewrite Hname, rpartition_app by exact Hdot.
  apply truthy_true in Hn. by rewrite Hn, Hne.
Qed.

(** X4.  The output name forgets the extension of the input: two inputs
    that differ only in their extension, such as [photo.png] and
    [photo.jpeg], get the same output name. *)
Theorem output_name_forgets_extension base ext1 ext2 prefix suffix :
  Pathlib.name base <> "" ->
  plain_extension ext1 = true -> plain_extension ext2 = true ->
  build_output_name (base ++ "." ++ ext1) prefix suffix
  = build_output_name (base ++ "." ++ ext2) prefix suffix.
Proof.
  intros Hn H1 H2. unfold build_output_name.
  by rewrite (stem_of_extended base ext1 Hn H1), (stem_of_extended base ext2 Hn H2).
Qed.

End StringFacts.

(** ** Size and budget texts *)

Section ParseFacts.

Lemma digits_value_of_uint d : forall acc after,
  d <> Nil \/ after = true ->
  digits_value (NilEmpty.string_of_uint d) acc after = Some (uint_value d acc).
Proof.
  induction d; intros acc after Hd;
    try (cbn [NilEmpty.string_of_uint digits_value uint_value];
         change (digit_of _) with (Some 0) || change (digit_of _) with (Some 1)
         || change (digit_of _) with (Some 2) || change (digit_of _) with (Some 3)
         || change (digit_of _) with (Some 4) || change (digit_of _) with (Some 5)
         || change (digit_of _) with (Some 6) || change (digit_of _) with (Some 7)
         || change (digit_of _) with (Some 8) || change (digit_of _) with (Some 9);
         apply IHd; by right).
  destruct Hd as [Hd| ->]; [done|reflexivity].
Qed.

Lemma uint_value_pos d : forall a,
  uint_value d (Z.pos a) = Z.pos (Pos.of_uint_acc d a).
Proof.
  induction d; intros a; cbn [uint_value Pos.of_uint_acc]; [reflexivity|..];
    match goal with
    | |- uint_value _ ?z = _ =>
        match goal with
        | |- _ = Z.pos (Pos.of_uint_acc _ ?p) =>
            replace z with (Z.pos p) by lia
        end
    end; apply IHd.
Qed.

Lemma uint_value_zero d : uint_value d 0 = Z.of_uint d.
Proof.
  unfold Z.of_uint.
  induction d; cbn [uint_value Pos.of_uint]; [reflexivity|exact IHd|..];
    match goal with
    | |- uint_value _ ?z = _ => change z with (Z.pos (Z.to_pos z))
    end; rewrite uint_value_pos; reflexivity.
Qed.

(** Texts of digits with an optional sign in front: what [str] prints for
    an integer. *)
Lemma numeral_char_facts c :
  numeral_char c = true ->
  is_space c = false /\ lower_char c = c /\ Ascii.eqb c "x" = false
  /\ is_c_space c = false.
Proof. destruct c as [[] [] [] [] [] [] [] []]; cbn; intros; by try discriminate. Qed.

Lemma numeral_uint d : numeral (NilEmpty.string_of_uint d) = true.
Proof. induction d; cbn [NilEmpty.string_of_uint numeral]; by rewrite ?IHd. Qed.

Lemma numeral_decimal_text n : numeral (decimal_text n) = true /\ decimal_text n <> "".
Proof.
  unfold decimal_text. destruct n as [|p|p]; cbn [Z.to_int NilZero.string_of_int].
  - by split.
  - unfold NilZero.string_of_uint.
    pose proof (DecimalPos.Unsigned.to_uint_nonnil p) as Hp.
    destruct (Pos.to_uint p) eqn:E; [done|..]; rewrite <- E;
      (split; [apply numeral_uint|rewrite E; discriminate]).
  - unfold NilZero.string_of_uint.
    pose proof (DecimalPos.Unsigned.to_uint_nonnil p) as Hp.
    destruct (Pos.to_uint p) eqn:E; [done|..]; rewrite <- E;
      (split; [cbn [numeral]; apply numeral_uint|discriminate]).
Qed.

(** What [str] returns is the decimal text, within the limit. *)
Lemma str_of_int_ok n s :
  str_of_int n = Ok s ->
  s = decimal_text n /\ count_digits s <= max_str_digits.
Proof.
  unfold str_of_int.
  destruct (Z.ltb_spec max_str_digits (count_digits (decimal_text n)));
    [discriminate|].
  by intros [= <-].
Qed.

Lemma lower_app a b : lower (a ++ b) = lower a ++ lower b.
Proof.
  induction a as [|c a IH]; [reflexivity|].
  rewrite append_cons. cbn [lower]. by rewrite IH.
Qed.

Lemma numeral_lower s : numeral s = true -> lower s = s.
Proof.
  induction s as [|c s IH]; [reflexivity|]. cbn [numeral lower].
  intros [Hc Hs]%andb_true_iff.
  destruct (numeral_char_facts c Hc) as (_ & -> & _). by rewrite IH.
Qed.

Lemma numeral_no_x s : numeral s = true -> contains "x" s = false.
Proof.
  induction s as [|c s IH]; [reflexivity|]. cbn [numeral contains].
  intros [Hc Hs]%andb_true_iff.
  destruct (numeral_char_facts c Hc) as (_ & _ & -> & _). by apply IH.
Qed.

(** [int] finds no white space to skip around a printed integer. *)
Lemma numeral_c_strip s : numeral s = true -> c_rstrip (c_lstrip s) = s.
Proof.
  intros Hs.
  assert (c_lstrip s = s) as ->.
  { destruct s as [|c s]; [reflexivity|]. cbn [c_lstrip numeral] in *.
    apply andb_true_iff in Hs as [Hc _].
    by destruct (numeral_char_facts c Hc) as (_ & _ & _ & ->). }
  induction s as [|c s IH]; [reflexivity|]. cbn [numeral c_rstrip] in *.
  apply andb_true_iff in Hs as [Hc Hs]. rewrite (IH Hs).
  destruct (numeral_char_facts c Hc) as (_ & _ & _ & ->). by destruct s.
Qed.

Lemma string_of_nonnil u :
  u <> Nil -> NilZero.string_of_uint u = NilEmpty.string_of_uint u.
Proof. by destruct u. Qed.

(** A printed sequence of digits is one run. *)
Lemma leading_run_uint d :
  leading_run (NilEmpty.string_of_uint d) = (NilEmpty.string_of_uint d, "").
Proof.
  induction d; [reflexivity|..];
    cbn [NilEmpty.string_of_uint leading_run];
    match goal with
    | |- context [digit_of ?c] =>
        let v := eval vm_compute in (digit_of c) in
        change (digit_of c) with v
    end; cbn iota; by rewrite IHd.
Qed.

(** The text of the digits of [p] starts with a digit, not with a sign. *)
Lemma unsigned_body u (A : Type) (f : bool * string -> A) :
  u <> Nil ->
  f (match NilEmpty.string_of_uint u with
     | String "-"%char r => (true, r)
     | String "+"%char r => (false, r)
     | _ => (false, NilEmpty.string_of_uint u)
     end)
  = f (false, NilEmpty.string_of_uint u).
Proof. by destruct u. Qed.

(** Reading back a decimal text gives the integer, within the limit. *)
Lemma int_of_decimal_text n :
  count_digits (decimal_text n) <= max_str_digits ->
  int_of_str (decimal_text n) = Ok n.
Proof.
  intros Hlen. unfold int_of_str.
  rewrite (numeral_c_strip _ (proj1 (numeral_decimal_text n))).
  revert Hlen.
  unfold decimal_text. destruct n as [|p|p]; cbn [Z.to_int NilZero.string_of_int];
    [reflexivity|..];
    pose proof (DecimalPos.Unsigned.to_uint_nonnil p) as Hp;
    pose proof (DecimalPos.Unsigned.of_to p) as Hv;
    rewrite (string_of_nonnil _ Hp);
    (assert (digits_value (NilEmpty.string_of_uint (Pos.to_uint p)) 0 false
             = Some (Z.pos p)) as Hd
       by (rewrite digits_value_of_uint by (by left);
           rewrite uint_value_zero; unfold Z.of_uint; by rewrite Hv)).
  - intros Hlen.
    rewrite (unsigned_body (Pos.to_uint p) _
               (fun pair => let '(negative, unsigned) := pair in _) Hp).
    rewrite leading_run_uint, Hd.
    destruct (Z.ltb_spec max_str_digits
                (count_digits (NilEmpty.string_of_uint (Pos.to_uint p)))); [lia|].
    reflexivity.
  - cbn [count_digits]. change (digit_of "-") with (@None Z). cbn iota.
    intros Hlen. rewrite leading_run_uint, Hd.
    destruct (Z.ltb_spec max_str_digits
                (count_digits (NilEmpty.string_of_uint (Pos.to_uint p)))); [lia|].
    reflexivity.
Qed.

(** Reading back what [str] printed gives the integer. *)
Lemma int_of_str_of_int n s : str_of_int n = Ok s -> int_of_str s = Ok n.
Proof.
  intros [-> Hlen]%str_of_int_ok. by apply int_of_decimal_text.
Qed.

Lemma split_no_sep sep s : contains sep s = false -> split sep s = [s].
Proof.
  induction s as [|c s IH]; [reflexivity|]. cbn [contains split].
  destruct (Ascii.eqb c sep); [discriminate|]. intros Hs. by rewrite IH.
Qed.

Lemma split_at_sep sep a b :
  contains sep a = false -> split sep (a ++ String sep b) = a :: split sep b.
Proof.
  induction a as [|c a IH].
  - intros _. change ("" ++ String sep b) with (String sep b).
    cbn [split]. by rewrite Ascii.eqb_refl.
  - rewrite append_cons. cbn [contains split].
    destruct (Ascii.eqb c sep); [discriminate|]. intros Ha. by rewrite IH.
Qed.

Lemma split1_at_sep sep a b :
  contains sep a = false -> split1 sep (a ++ String sep b) = [a; b].
Proof.
  induction a as [|c a IH].
  - intros _. change ("" ++ String sep b) with (String sep b).
    cbn [split1]. by rewrite Ascii.eqb_refl.
  - rewrite append_cons. cbn [contains split1].
    destruct (Ascii.eqb c sep); [discriminate|]. intros Ha. by rewrite IH.
Qed.

(** X5.  The size text of the status line reads back.  For all integers
    [w] and [h] that [str] prints (each has at most 4300 digits), the
    command-line parser maps the text [WxH] made of the two printed texts
    to the pair [(w, h)], and it does the same with a capital [X] between
    them. *)
Theorem parse_size_reads_printed_frame (w h : Z) (w_s h_s : string) :
  str_of_int w = Ok w_s -> str_of_int h = Ok h_s ->
  parse_size (w_s ++ "x" ++ h_s) = Ok (w, h)
  /\ parse_size (w_s ++ "X" ++ h_s) = Ok (w, h).
Proof.
  intros Hw_s Hh_s.
  pose proof (int_of_str_of_int w w_s Hw_s) as Hwi.
  pose proof (int_of_str_of_int h h_s Hh_s) as Hhi.
  apply str_of_int_ok in Hw_s as [-> _], Hh_s as [-> _].
  destruct (numeral_decimal_text w) as [Hw _], (numeral_decimal_text h) as [Hh _].
  assert (forall sep, lower_char sep = "x"%char ->
            lower (decimal_text w ++ String sep (decimal_text h))
            = decimal_text w ++ String "x" (decimal_text h)) as Hlower.
  { intros sep Hsep. rewrite lower_app. cbn [lower]. rewrite Hsep.
    by rewrite !numeral_lower. }
  assert (forall sep, lower_char sep = "x"%char ->
            parse_size (decimal_text w ++ String sep (decimal_text h)) = Ok (w, h))
    as Hparse.
  { intros sep Hsep. unfold parse_size. rewrite (Hlower sep Hsep).
    rewrite split_at_sep by by apply numeral_no_x.
    rewrite split_no_sep by by apply numeral_no_x.
    by rewrite Hwi, Hhi. }
  split; by apply Hparse.
Qed.
End ParseFacts.

Section GuiFacts.

Lemma solid_app a b : solid (a ++ b) = solid a && solid b.
Proof.
  induction a as [|c a IH]; [reflexivity|].
  rewrite append_cons. cbn [solid]. by rewrite IH, andb_assoc.
Qed.

Lemma numeral_solid s : numeral s = true -> solid s = true.
Proof.
  induction s as [|c s IH]; [reflexivity|]. cbn [numeral solid].
  intros [Hc Hs]%andb_true_iff.
  destruct (numeral_char_facts c Hc) as (-> & _ & _). by apply IH.
Qed.

Lemma solid_strip s : solid s = true -> strip s = s.
Proof.
  intros Hs. unfold strip.
  assert (lstrip s = s) as ->.
  { destruct s as [|c s]; [reflexivity|]. cbn [lstrip solid] in *.
    apply andb_true_iff in Hs as [Hc _]. apply negb_true_iff in Hc.
    by rewrite Hc. }
  induction s as [|c s IH]; [reflexivity|]. cbn [solid rstrip] in *.
  apply andb_true_iff in Hs as [Hc Hs]. apply negb_true_iff in Hc.
  rewrite (IH Hs), Hc. by destruct s.
Qed.

Lemma contains_at_sep sep a b : contains sep (a ++ String sep b) = true.
Proof.
  rewrite contains_app. cbn [contains]. rewrite Ascii.eqb_refl. apply orb_true_r.
Qed.

(** X7.  The two checks of the graphical front end read back printed
    integers and let the positive ones through, and only them.  For all
    integers that [str] prints (each has at most 4300 digits): the size
    check on the text [WxH] returns the pair when both sides are
    positive and its error otherwise, and the budget check on a printed
    integer returns it when it is positive and its error otherwise. *)
Theorem gui_checks_read_printed_integers (w h n : Z) (w_s h_s n_s : string) :
  str_of_int w = Ok w_s -> str_of_int h = Ok h_s -> str_of_int n = Ok n_s ->
  App._parse_size (w_s ++ "x" ++ h_s)
  = (if (w <=? 0) || (h <=? 0)
     then Raise (ValueError "Target Size must be positive numbers")
     else Ok (w, h))
  /\ _parse_max_kb n_s
     = (if n <=? 0
        then Raise (ValueError "Max KB must be a positive number")
        else Ok n).
Proof.
  intros Hw_s Hh_s Hn_s.
  pose proof (int_of_str_of_int w w_s Hw_s) as Hwi.
  pose proof (int_of_str_of_int h h_s Hh_s) as Hhi.
  pose proof (int_of_str_of_int n n_s Hn_s) as Hni.
  apply str_of_int_ok in Hw_s as [-> _], Hh_s as [-> _], Hn_s as [-> _].
  destruct (numeral_decimal_text w) as [Hw _], (numeral_decimal_text h) as [Hh _],
    (numeral_decimal_text n) as [Hn _].
  split.
  - unfold App._parse_size.
    change (decimal_text w ++ "x" ++ decimal_text h)
      with (decimal_text w ++ String "x" (decimal_text h)).
    rewrite solid_strip.
    2:{ rewrite solid_app, (numeral_solid _ Hw). cbn [solid andb].
        rewrite (numeral_solid _ Hh). reflexivity. }
    rewrite lower_app. change (lower (String "x" (decimal_text h)))
      with (String "x" (lower (decimal_text h))).
    rewrite !numeral_lower by assumption.
    rewrite contains_at_sep. cbn [negb].
    rewrite split1_at_sep by by apply numeral_no_x.
    by rewrite Hwi, Hhi.
  - unfold _parse_max_kb.
    rewrite (solid_strip _ (numeral_solid _ Hn)).
    by rewrite Hni.
Qed.

End GuiFacts.

Section GuiAgainstCommandLine.

Lemma is_space_lower c : is_space (lower_char c) = is_space c.
Proof. by destruct c as [[] [] [] [] [] [] [] []]. Qed.

Lemma c_space_is_not_x c : is_c_space c = true -> Ascii.eqb c "x" = false.
Proof. destruct c as [[] [] [] [] [] [] [] []]; cbn; intros; by try discriminate. Qed.

Lemma digit_is_not_x c d : digit_of c = Some d -> Ascii.eqb c "x" = false.
Proof. destruct c as [[] [] [] [] [] [] [] []]; cbn; intros; by try discriminate. Qed.

(** On plain characters the two white-space classes are one. *)
Lemma plain_space_is_c_space c :
  plain_text (String c "") = true -> is_space c = true -> is_c_space c = true.
Proof. destruct c as [[] [] [] [] [] [] [] []]; cbn; intros; by try discriminate. Qed.

Lemma plain_lower_char c :
  plain_text (String (lower_char c) "") = plain_text (String c "").
Proof. by destruct c as [[] [] [] [] [] [] [] []]. Qed.

Lemma plain_text_cons c s :
  plain_text (String c s) = plain_text (String c "") && plain_text s.
Proof. cbn [plain_text]. by rewrite andb_true_r. Qed.

Lemma plain_text_app a b : plain_text (a ++ b) = plain_text a && plain_text b.
Proof.
  induction a as [|c a IH]; [reflexivity|].
  rewrite append_cons, (plain_text_cons c (a ++ b)), (plain_text_cons c a), IH.
  by rewrite andb_assoc.
Qed.

Lemma plain_text_lower s : plain_text (lower s) = plain_text s.
Proof.
  induction s as [|c s IH]; [reflexivity|]. cbn [lower].
  by rewrite (plain_text_cons _ (lower s)), (plain_text_cons c s),
    plain_lower_char, IH.
Qed.

Lemma plain_blank_is_c_blank l :
  plain_text l = true -> blank l = true -> c_blank l = true.
Proof.
  induction l as [|c l IH]; [reflexivity|].
  rewrite plain_text_cons. cbn [blank c_blank].
  intros [Hc Hl]%andb_true_iff [Hs Hb]%andb_true_iff.
  by rewrite (plain_space_is_c_space c Hc Hs), IH.
Qed.

Lemma lstrip_lower s : lstrip (lower s) = lower (lstrip s).
Proof.
  induction s as [|c s IH]; [reflexivity|].
  cbn [lower lstrip]. rewrite is_space_lower.
  by destruct (is_space c).
Qed.

Lemma rstrip_lower s : rstrip (lower s) = lower (rstrip s).
Proof.
  induction s as [|c s IH]; [reflexivity|].
  cbn [lower rstrip]. rewrite IH, is_space_lower.
  destruct (rstrip s); cbn [lower]; [by destruct (is_space c)|reflexivity].
Qed.

Lemma strip_lower s : strip (lower s) = lower (strip s).
Proof. unfold strip. by rewrite lstrip_lower, rstrip_lower. Qed.

Lemma lstrip_cut s : exists l, blank l = true /\ s = l ++ lstrip s.
Proof.
  induction s as [|c s (l & Hl & Hs)]; [by exists ""|].
  cbn [lstrip]. destruct (is_space c) eqn:Hc.
  - exists (String c l). cbn [blank]. rewrite Hc, Hl.
    split; [reflexivity|]. by rewrite append_cons, <- Hs.
  - by exists "".
Qed.

Lemma rstrip_cut s : exists r, blank r = true /\ s = rstrip s ++ r.
Proof.
  induction s as [|c s (r & Hr & Hs)]; [by exists ""|].
  cbn [rstrip]. destruct (rstrip s) as [|x t] eqn:Ht.
  - change ("" ++ r) with r in Hs. subst s.
    destruct (is_space c) eqn:Hc.
    + exists (String c r). cbn [blank]. by rewrite Hc, Hr.
    + by exists r.
  - exists r. split; [exact Hr|]. by rewrite append_cons, <- Hs.
Qed.

Lemma c_lstrip_cut s : exists l, c_blank l = true /\ s = l ++ c_lstrip s.
Proof.
  induction s as [|c s (l & Hl & Hs)]; [by exists ""|].
  cbn [c_lstrip]. destruct (is_c_space c) eqn:Hc.
  - exists (String c l). cbn [c_blank]. rewrite Hc, Hl.
    split; [reflexivity|]. by rewrite append_cons, <- Hs.
  - by exists "".
Qed.

Lemma c_rstrip_cut s : exists r, c_blank r = true /\ s = c_rstrip s ++ r.
Proof.
  induction s as [|c s (r & Hr & Hs)]; [by exists ""|].
  cbn [c_rstrip]. destruct (c_rstrip s) as [|x t] eqn:Ht.
  - change ("" ++ r) with r in Hs. subst s.
    destruct (is_c_space c) eqn:Hc.
    + exists (String c r). cbn [c_blank]. by rewrite Hc, Hr.
    + by exists r.
  - exists r. split; [exact Hr|]. by rewrite append_cons, <- Hs.
Qed.

Lemma c_blank_no_x l : c_blank l = true -> contains "x" l = false.
Proof.
  induction l as [|c l IH]; [reflexivity|]. cbn [c_blank contains].
  intros [Hc Hl]%andb_true_iff. rewrite (c_space_is_not_x c Hc). by apply IH.
Qed.

Lemma c_lstrip_blank s : c_blank s = true -> c_lstrip s = "".
Proof.
  induction s as [|c s IH]; [reflexivity|]. cbn [c_blank c_lstrip].
  intros [Hc Hs]%andb_true_iff. rewrite Hc. by apply IH.
Qed.

Lemma c_rstrip_blank s : c_blank s = true -> c_rstrip s = "".
Proof.
  induction s as [|c s IH]; [reflexivity|]. cbn [c_blank c_rstrip].
  intros [Hc Hs]%andb_true_iff. by rewrite (IH Hs), Hc.
Qed.

Lemma c_lstrip_after_blank l a : c_blank l = true -> c_lstrip (l ++ a) = c_lstrip a.
Proof.
  induction l as [|c l IH]; [reflexivity|]. cbn [c_blank].
  intros [Hc Hl]%andb_true_iff. rewrite append_cons. cbn [c_lstrip].
  rewrite Hc. by apply IH.
Qed.

Lemma c_rstrip_before_blank a r : c_blank r = true -> c_rstrip (a ++ r) = c_rstrip a.
Proof.
  intros Hr. induction a as [|c a IH].
  - change ("" ++ r) with r. by rewrite c_rstrip_blank.
  - rewrite append_cons. cbn [c_rstrip]. by rewrite IH.
Qed.

Lemma c_strip_before_blank a r :
  c_blank r = true -> c_rstrip (c_lstrip (a ++ r)) = c_rstrip (c_lstrip a).
Proof.
  intros Hr. induction a as [|c a IH].
  - change ("" ++ r) with r. by rewrite c_lstrip_blank.
  - rewrite append_cons. cbn [c_lstrip]. destruct (is_c_space c); [exact IH|].
    rewrite <- append_cons. by apply c_rstrip_before_blank.
Qed.

Lemma digits_value_no_x s : forall acc after v,
  digits_value s acc after = Some v -> contains "x" s = false.
Proof.
  induction s as [|c s IH]; intros acc after v; [reflexivity|].
  cbn [digits_value contains].
  destruct (digit_of c) as [d|] eqn:Hd.
  - rewrite (digit_is_not_x c d Hd). apply IH.
  - destruct (Ascii.eqb_spec c "_") as [->|]; cbn [andb]; [|discriminate].
    destruct after; [|discriminate]. cbn. apply IH.
Qed.

(** The run and what follows it are a cut of the text. *)
Lemma leading_run_cut s : s = fst (leading_run s) ++ snd (leading_run s).
Proof.
  induction s as [|c s IH]; [reflexivity|]. cbn [leading_run].
  destruct (match digit_of c with Some _ => true | None => Ascii.eqb c "_" end);
    [|reflexivity].
  destruct (leading_run s) as [run rest]. cbn [fst snd] in *.
  by rewrite append_cons, <- IH.
Qed.

(** The value that [int] gives depends on the text between the white
    space only. *)
Lemma int_of_str_strip a a' v :
  c_rstrip (c_lstrip a) = c_rstrip (c_lstrip a') ->
  int_of_str a = Ok v -> int_of_str a' = Ok v.
Proof.
  unfold int_of_str. intros ->.
  destruct (match c_rstrip (c_lstrip a') with
            | String "-" r => (true, r)
            | String "+" r => (false, r)
            | _ => (false, c_rstrip (c_lstrip a'))
            end) as [negative unsigned].
  destruct (leading_run unsigned) as [run rest].
  destruct (digits_value run 0 false); [|discriminate].
  destruct (max_str_digits <? count_digits run); [discriminate|].
  by destruct (truthy rest).
Qed.

Lemma int_sign_cases c r :
  match String c r with
  | String "-" r' => (true, r')
  | String "+" r' => (false, r')
  | _ => (false, String c r)
  end
  = if Ascii.eqb c "-" then (true, r)
    else if Ascii.eqb c "+" then (false, r)
    else (false, String c r).
Proof. by destruct c as [[] [] [] [] [] [] [] []]. Qed.

Lemma int_of_str_no_x b v : int_of_str b = Ok v -> contains "x" b = false.
Proof.
  intros Hb.
  assert (forall unsigned negative,
            (let '(run, rest) := leading_run unsigned in
             match digits_value run 0 false with
             | None => Raise (ValueError ("invalid literal for int() with base 10: " ++ b))
             | Some n =>
                 if max_str_digits <? count_digits run then
                   Raise (ValueError ("Exceeds the limit (4300 digits) for integer string "
                                      ++ "conversion: value has "
                                      ++ decimal_text (count_digits run)
                                      ++ " digits; use sys.set_int_max_str_digits() to "
                                      ++ "increase the limit"))
                 else if truthy rest
                      then Raise (ValueError ("invalid literal for int() with base 10: " ++ b))
                      else Ok (if negative : bool then - n else n)
             end) = Ok v ->
            contains "x" unsigned = false) as Hrun.
  { intros unsigned negative. rewrite (leading_run_cut unsigned) at 2.
    destruct (leading_run unsigned) as [run rest]. cbn [fst snd].
    destruct (digits_value run 0 false) as [n|] eqn:Hn; [|discriminate].
    destruct (max_str_digits <? count_digits run); [discriminate|].
    destruct rest; [|discriminate]. intros _.
    rewrite append_nil. exact (digits_value_no_x _ _ _ _ Hn). }
  assert (contains "x" (c_rstrip (c_lstrip b)) = false) as Hbody.
  { unfold int_of_str in Hb. destruct (c_rstrip (c_lstrip b)) as [|c r].
    - reflexivity.
    - rewrite int_sign_cases in Hb. cbn [contains].
      destruct (Ascii.eqb_spec c "-") as [->|_];
        [|destruct (Ascii.eqb_spec c "+") as [->|_]].
      + exact (Hrun r true Hb).
      + exact (Hrun r false Hb).
      + exact (Hrun (String c r) false Hb). }
  destruct (c_lstrip_cut b) as (l & Hl & Hcut).
  destruct (c_rstrip_cut (c_lstrip b)) as (r & Hr & Hcut').
  rewrite Hcut, Hcut'.
  by rewrite !contains_app, Hbody, (c_blank_no_x l Hl), (c_blank_no_x r Hr).
Qed.

Lemma split1_cut sep s a b :
  split1 sep s = [a; b] -> s = a ++ String sep b /\ contains sep a = false.
Proof.
  revert a. induction s as [|c s IH]; intros a; cbn [split1]; [discriminate|].
  destruct (Ascii.eqb_spec c sep) as [->|Hne].
  - by intros [= <- <-].
  - destruct (split1 sep s) as [|p [|q [|? ?]]] eqn:Hs; try discriminate.
    intros [= <- <-]. destruct (IH p eq_refl) as [-> Hp].
    split; [reflexivity|]. cbn [contains].
    by destruct (Ascii.eqb_spec c sep).
Qed.

(** X6.  On plain texts (ASCII characters, without the separators 28 to
    31 that [str.strip] removes and [int] does not skip), every size text
    that the graphical front end accepts is accepted by the command-line
    parser as it stands, white space and letter case included, with the
    same pair, and that pair is positive. *)
Theorem gui_size_is_command_line_size size_var w h :
  plain_text size_var = true ->
  App._parse_size size_var = Ok (w, h) ->
  parse_size size_var = Ok (w, h) /\ 0 < w /\ 0 < h.
Proof.
  intros Hplain Hgui.
  assert (0 < w /\ 0 < h) as Hpos.
  { revert Hgui. unfold App._parse_size.
    destruct (negb _); [discriminate|].
    destruct (split1 _ _) as [|w_s [|h_s [|? ?]]]; try discriminate.
    destruct (int_of_str w_s) as [w'|]; [|discriminate].
    destruct (int_of_str h_s) as [h'|]; [|discriminate]. cbn [rbind].
    destruct (Z.leb_spec w' 0), (Z.leb_spec h' 0); cbn [orb]; try discriminate.
    intros [= <- <-]. lia. }
  split; [|exact Hpos].
  unfold App._parse_size in Hgui.
  destruct (negb _); [discriminate|].
  destruct (split1 "x" (lower (strip size_var))) as [|a [|b [|? ?]]] eqn:Hsplit;
    try discriminate.
  destruct (int_of_str a) as [w'|] eqn:Ha; [|discriminate].
  destruct (int_of_str b) as [h'|] eqn:Hb; [|discriminate].
  cbn [rbind] in Hgui.
  destruct ((w' <=? 0) || (h' <=? 0)); [discriminate|].
  injection Hgui as -> ->.
  destruct (split1_cut _ _ _ _ Hsplit) as [Hraw Hax].
  pose proof (int_of_str_no_x b h Hb) as Hbx.
  rewrite <- strip_lower in Hraw.
  destruct (lstrip_cut (lower size_var)) as (l & Hl & Hcut).
  destruct (rstrip_cut (lstrip (lower size_var))) as (r & Hr & Hcut').
  fold (strip (lower size_var)) in Hcut'.
  assert (lower size_var = (l ++ a) ++ String "x" (b ++ r)) as Hall.
  { rewrite Hcut, Hcut', Hraw. by rewrite !append_assoc. }
  assert (c_blank l = true /\ c_blank r = true) as [Hcl Hcr].
  { rewrite <- plain_text_lower, Hall in Hplain.
    rewrite !plain_text_app, (plain_text_cons "x"), !plain_text_app in Hplain.
    apply andb_true_iff in Hplain as [[Hpl _]%andb_true_iff Hrest].
    apply andb_true_iff in Hrest as [_ [_ Hpr]%andb_true_iff].
    split; by apply plain_blank_is_c_blank. }
  unfold parse_size. rewrite Hall.
  rewrite split_at_sep by (by rewrite contains_app, (c_blank_no_x l Hcl), Hax).
  rewrite split_no_sep by (by rewrite contains_app, Hbx, (c_blank_no_x r Hcr)).
  rewrite (int_of_str_strip a (l ++ a) w) by
    (by rewrite ?c_lstrip_after_blank).
  rewrite (int_of_str_strip b (b ++ r) h) by
    (by rewrite ?c_strip_before_blank).
  reflexivity.
Qed.

End GuiAgainstCommandLine.

(** ** More on the size fitter *)

Section FitterMore.
Context `{Backend}.

Ltac step_fit :=
  unfold resize_to_fit, exif_transpose, convert, resize, new, paste, crop,
    bind, tell, ret, lift, raise, calls, outcome;
  cbn [fst snd app PIL.size PIL.mode].

(** X8.  Whatever the mode text and the sizes, an image that the size
    fitter returns has exactly the frame size and is RGB. *)
Theorem fitted_image_is_rgb_frame img tw th mode im :
  outcome (resize_to_fit img (tw, th) mode) = Ok im ->
  PIL.size im = (tw, th) /\ PIL.mode im = "RGB".
Proof.
  step_fit.
  repeat case_match; simplify_eq/=; intros; simplify_eq/=; try done.
  all: split; [f_equal; lia|reflexivity].
Qed.

(** X9.  In mode exact the aspect ratio of the source plays no part.  An
    image that is returned comes from three calls, the transpose, the
    conversion and one resize to the frame; it is the normalized source
    itself when that already has the frame size, and its resampling to
    the frame otherwise: nothing is cropped and nothing is padded. *)
Theorem exact_resamples_to_frame img tw th im :
  outcome (resize_to_fit img (tw, th) "exact") = Ok im ->
  calls (resize_to_fit img (tw, th) "exact")
  = [CExifTranspose; CConvert "RGB"; CResize (tw, th)]
  /\ PIL.size im = (tw, th) /\ PIL.mode im = "RGB"
  /\ forall x y,
       px im x y
       = if decide (PIL.size (normalized img) = (tw, th))
         then px (normalized img) x y
         else lanczos_px (PIL.size (normalized img)) (px (normalized img))
                (tw, th) x y.
Proof.
  unfold resize_to_fit, normalized.
  change ("exact" =? "exact")%string with true.
  step_fit.
  destruct (decide (PIL.size (transposed img) = (tw, th))) as [Heq|Hne]; cbn.
  - intros [= <-]. cbn. by split_and!.
  - destruct ((tw <? 1) || (th <? 1)); cbn; [discriminate|].
    intros [= <-]. cbn. by split_and!.
Qed.

(** A mode outside cover, contain and exact makes the fitter raise. *)
Lemma unknown_mode_raises img size mode :
  ~ known_mode mode -> exists e, outcome (resize_to_fit img size mode) = Raise e.
Proof.
  intros Hk. destruct size as [tw th].
  assert (String.eqb mode "exact" = false /\ String.eqb mode "contain" = false
          /\ String.eqb mode "cover" = false) as (He & Hc & Hv).
  { unfold known_mode in Hk.
    repeat split; apply String.eqb_neq; intros ->; tauto. }
  step_fit. rewrite He, Hc, Hv.
  destruct (PIL.size (transposed img)) as [sw sh]. cbn [fst snd].
  destruct (int_truediv sw sh); cbn; [|by eexists].
  destruct (int_truediv tw th); cbn; by eexists.
Qed.

(** X10.  In mode cover an image that is returned is a window of the
    resized source: one side of the resized source is the frame side, the
    window starts at the floor-divided centring offsets of the resized
    size, and when the resized source covers the frame every pixel of the
    result is a pixel of it, none is padding. *)
Theorem cover_returns_centred_window img w h im :
  outcome (resize_to_fit img (w, h) "cover") = Ok im ->
  exists nw nh content,
    outcome (resize (normalized img) (nw, nh)) = Ok content
    /\ PIL.size content = (nw, nh)
    /\ (nw = w \/ nh = h)
    /\ calls (resize_to_fit img (w, h) "cover")
       = [CExifTranspose; CConvert "RGB"; CResize (nw, nh);
          CCrop ((nw - w) / 2, (nh - h) / 2, (nw - w) / 2 + w, (nh - h) / 2 + h)]
    /\ (w <= nw -> h <= nh ->
        forall x y, 0 <= x < w -> 0 <= y < h ->
          px im x y = px content (x + (nw - w) / 2) (y + (nh - h) / 2)).
Proof.
  unfold resize_to_fit, normalized.
  change ("cover" =? "exact")%string with false.
  change ("cover" =? "contain")%string with false.
  change ("cover" =? "cover")%string with true.
  step_fit.
  destruct (PIL.size (transposed img)) as [sw sh] eqn:Hsz. cbn [fst snd].
  destruct (int_truediv sw sh) as [sr|]; cbn [rbind fst snd]; [|discriminate].
  destruct (int_truediv w h) as [tr|]; cbn [rbind fst snd]; [|discriminate].
  assert (forall a b : Z, b <= a -> (a - b) / 2 + b <= a) as Hfit.
  { intros a b Hab. pose proof (Z.mul_div_le (a - b) 2). lia. }
  destruct (float_gt sr tr).
  - destruct (rbind (int_mul_float h sr) round) as [nw|]; cbn [rbind fst snd];
      [|discriminate].
    intros Hrun. exists nw, h.
    destruct (decide ((sw, sh) = (nw, h))) as [Heq|Hne];
      [|destruct ((nw <? 1) || (h <? 1)); [discriminate|]];
      cbn in Hrun |- *;
      (destruct ((nw - w) / 2 + w <? (nw - w) / 2); [discriminate|]);
      (destruct ((h - h) / 2 + h <? (h - h) / 2); [discriminate|]);
      cbn in Hrun |- *; injection Hrun as <-; simplify_eq;
      eexists; (split_and!; [reflexivity|reflexivity|by right|reflexivity|]);
      intros Hw Hh x y Hx Hy; cbn;
      replace ((h - h) / 2) with 0 by (by replace (h - h) with 0 by lia);
      pose proof (Hfit nw w Hw);
      (assert (0 <= (nw - w) / 2) by (apply Z.div_pos; lia));
      destruct (Z.leb_spec 0 (x + (nw - w) / 2)), (Z.ltb_spec (x + (nw - w) / 2) nw),
        (Z.leb_spec 0 (y + 0)), (Z.ltb_spec (y + 0) h); try lia; reflexivity.
  - destruct (rbind (int_div_float w sr) round) as [nh|]; cbn [rbind fst snd];
      [|discriminate].
    intros Hrun. exists w, nh.
    destruct (decide ((sw, sh) = (w, nh))) as [Heq|Hne];
      [|destruct ((w <? 1) || (nh <? 1)); [discriminate|]];
      cbn in Hrun |- *;
      (destruct ((w - w) / 2 + w <? (w - w) / 2); [discriminate|]);
      (destruct ((nh - h) / 2 + h <? (nh - h) / 2); [discriminate|]);
      cbn in Hrun |- *; injection Hrun as <-; simplify_eq;
      eexists; (split_and!; [reflexivity|reflexivity|by left|reflexivity|]);
      intros Hw Hh x y Hx Hy; cbn;
      replace ((w - w) / 2) with 0 by (by replace (w - w) with 0 by lia);
      pose proof (Hfit nh h Hh);
      (assert (0 <= (nh - h) / 2) by (apply Z.div_pos; lia));
      destruct (Z.leb_spec 0 (x + 0)), (Z.ltb_spec (x + 0) w),
        (Z.leb_spec 0 (y + (nh - h) / 2)), (Z.ltb_spec (y + (nh - h) / 2) nh);
        try lia; reflexivity.
Qed.
End FitterMore.

(** ** More on the overlay stage *)

Section OverlayMore.
Context `{Backend}.

Lemma drawn_attributes items : forall im x y,
  PIL.size (drawn im x y items) = PIL.size im
  /\ PIL.mode (drawn im x y items) = PIL.mode im
  /\ orientation (drawn im x y items) = orientation im.
Proof.
  induction items as [|[[text f] h] rest IH]; intros im x y; [done|].
  cbn [drawn]. destruct (IH (with_px (with_px im (text_px f text (x + 1, y + 1) [0; 0; 0] im))
                              (text_px f text (x, y) [255; 255; 255]
                                 (with_px im (text_px f text (x + 1, y + 1) [0; 0; 0] im))))
                           x (y + h + 4)) as (-> & -> & ->).
  done.
Qed.

(** What a call of the overlay stage does, for every pair of texts. *)
Lemma add_watermark_result (st : store) img im identity_text caption_text margin :
  st !! img = Some im ->
  exists r items y,
    add_watermark img identity_text caption_text margin st
    = (<[r := drawn im margin y items]> st, Ok r)
    /\ (r = img /\ items = [] \/ st !! r = None /\ items <> [])
    /\ map (fun item => fst (fst item)) items
       = overlay_texts identity_text caption_text
    /\ map (fun item => snd (fst item)) items
       = (repeat (fst fonts_of_host)
            (if truthy identity_text
             then List.length (split "|" identity_text) else 0%nat)
          ++ (if truthy caption_text then [snd fonts_of_host] else []))%list.
Proof.
  intros Himg. unfold add_watermark.
  destruct (negb (truthy identity_text) && negb (truthy caption_text)) eqn:Hgo.
  { exists img, [], 0. cbn [drawn]. rewrite insert_id by done.
    apply andb_true_iff in Hgo as [Hi Hc].
    apply negb_true_iff in Hi, Hc. unfold overlay_texts. rewrite Hi, Hc.
    split_and!; [done|by left|done|done]. }
  unfold hbind at 1. rewrite (copy_run st img im Himg).
  set (img' := fresh (dom st)).
  assert (match rbind (truetype "C:/Windows/Fonts/arial.ttf" 20) (fun a =>
                rbind (truetype "C:/Windows/Fonts/arial.ttf" 18) (fun b =>
                Ok (a, b))) with
          | Ok fonts => fonts
          | Raise _ => (load_default, load_default)
          end = fonts_of_host) as ->.
  { unfold truetype, fonts_of_host.
    by destruct (font_file "C:/Windows/Fonts/arial.ttf"). }
  destruct fonts_of_host as [font_main font_caption]. cbn [fst snd].
  set (lines := if truthy caption_text then _ else _).
  destruct (measure lines) as [line_widths line_heights] eqn:Hmeasure.
  destruct (measure_lengths _ _ _ Hmeasure) as [Hlw Hlh].
  pose proof (overlay_lines_texts identity_text caption_text font_main font_caption)
    as Htexts. fold lines in Htexts.
  assert (overlay_texts identity_text caption_text <> []) as Hsome.
  { unfold overlay_texts.
    destruct (truthy identity_text) eqn:Hi.
    - intros [Hnil _]%app_eq_nil. by apply split_nonempty in Hnil.
    - destruct (truthy caption_text) eqn:Hc; [done|].
      cbn in Hgo. discriminate Hgo. }
  assert (lines <> []) as Hlines.
  { intros Hnil. by rewrite Hnil in Htexts. }
  destruct line_widths as [|w0 line_widths];
    [destruct lines; [done|discriminate Hlw]|].
  assert (st !! img' = None) as Hfresh by apply fresh_ref_unused.
  exists img', (zip lines line_heights),
    (height im - (sum_list line_heights + (Z.of_nat (List.length lines) - 1) * 4)
     - margin).
  split.
  { cbn [max_list]. unfold hbind at 1, hlift. cbn beta iota.
    unfold hbind at 1.
    rewrite (deref_some (<[img' := im]> st) img' im) by apply lookup_insert_eq.
    unfold hbind, hret.
    rewrite (draw_lines_run img' margin _ (<[img' := im]> st) im)
      by apply lookup_insert_eq.
    by rewrite insert_insert_eq. }
  split.
  { right. split; [exact Hfresh|]. destruct lines; [done|].
    destruct line_heights; [discriminate Hlh|done]. }
  split.
  { rewrite <- Htexts. rewrite <- (fst_zip lines line_heights) at 2 by lia.
    by rewrite map_map. }
  transitivity (map snd lines).
  { rewrite <- (fst_zip lines line_heights) at 2 by lia. by rewrite map_map. }
  subst lines. clear.
  destruct (truthy identity_text), (truthy caption_text); cbn [app];
    rewrite ?map_app, ?map_map; cbn [map snd]; rewrite ?app_nil_r;
    try reflexivity.
  - f_equal. induction (split "|" identity_text); cbn; [done|by f_equal].
  - induction (split "|" identity_text); cbn; [done|by f_equal].
Qed.

(** X11.  The overlay stage keeps the frame.  Whenever it returns, the
    image behind the reference it returns has the size, the mode and the
    orientation of the input image, whatever the two texts and whether or
    not the host has the font file. *)
Theorem add_watermark_keeps_frame (st st' : store) img im identity_text
    caption_text margin r :
  st !! img = Some im ->
  add_watermark img identity_text caption_text margin st = (st', Ok r) ->
  exists im',
    st' !! r = Some im'
    /\ PIL.size im' = PIL.size im
    /\ PIL.mode im' = PIL.mode im
    /\ orientation im' = orientation im.
Proof.
  intros Himg Hrun.
  destruct (add_watermark_result st img im identity_text caption_text margin Himg)
    as (r' & items & y & Hres & _).
  rewrite Hres in Hrun. injection Hrun as <- <-.
  destruct (drawn_attributes items im margin y) as (Hs & Hm & Ho).
  exists (drawn im margin y items).
  split; [apply lookup_insert_eq|]. by split_and!.
Qed.

(** X12.  The two fonts fall back together.  When the host has the font
    file, the identity lines are drawn in it at 20 points and the caption
    at 18 points; when it has not, every line is drawn in the default
    font.  There is one identity line for each piece between [|] marks. *)
Theorem overlay_fonts_fall_back_together (st : store) img im identity_text
    caption_text margin :
  st !! img = Some im ->
  exists r items y,
    add_watermark img identity_text caption_text margin st
    = (<[r := drawn im margin y items]> st, Ok r)
    /\ map (fun item => snd (fst item)) items
       = (repeat (if font_file "C:/Windows/Fonts/arial.ttf"
                  then FreeTypeFont "C:/Windows/Fonts/arial.ttf" 20
                  else DefaultFont)
            (if truthy identity_text
             then List.length (split "|" identity_text) else 0%nat)
          ++ (if truthy caption_text
              then [if font_file "C:/Windows/Fonts/arial.ttf"
                    then FreeTypeFont "C:/Windows/Fonts/arial.ttf" 18
                    else DefaultFont]
              else []))%list.
Proof.
  intros Himg.
  destruct (add_watermark_result st img im identity_text caption_text margin Himg)
    as (r & items & y & Hrun & _ & _ & Hfonts).
  exists r, items, y. split; [exact Hrun|].
  rewrite Hfonts. unfold fonts_of_host.
  by destruct (font_file "C:/Windows/Fonts/arial.ttf").
Qed.
End OverlayMore.

(** ** More on the budgeted encoder *)

Section EncoderMore.
Context `{Backend}.
Variables (img : Image) (out_path : string).

(** A run changes no path but the destination, however it ends. *)
Lemma save_loop_frame max_bytes qmin step fuel : forall q fs fs' r,
  save_loop fuel img out_path max_bytes qmin step q fs = Some (fs', r) ->
  forall p, p <> out_path -> fs' !! p = fs !! p.
Proof.
  induction fuel as [|fuel IH]; intros q fs fs' r; [discriminate|].
  cbn [save_loop].
  destruct (qmin <=? q).
  - rewrite stat_after_save.
    destruct (trial_size img q <=? max_bytes).
    + intros [= <- <-] p Hp. by apply save_other.
    + intros Hrun p Hp. rewrite (IH _ _ _ _ Hrun p Hp). by apply save_other.
  - destruct (stat_size fs out_path); by intros [= <- <-].
Qed.

(** Two runs from the same quality agree when the loop body is entered,
    or when the destination holds the same bytes in both. *)
Lemma save_loop_agree max_bytes qmin step fuel : forall q (fs1 fs2 : files),
  qmin <= q \/ fs1 !! out_path = fs2 !! out_path ->
  match save_loop fuel img out_path max_bytes qmin step q fs1,
        save_loop fuel img out_path max_bytes qmin step q fs2 with
  | Some (f1, r1), Some (f2, r2) => r1 = r2 /\ f1 !! out_path = f2 !! out_path
  | None, None => True
  | _, _ => False
  end.
Proof.
  induction fuel as [|fuel IH]; intros q fs1 fs2 Hstart; [done|].
  cbn [save_loop].
  destruct (Z.leb_spec qmin q) as [Hin|Hout].
  - rewrite !stat_after_save.
    destruct (trial_size img q <=? max_bytes).
    + split; [reflexivity|]. by rewrite !save_lookup.
    + apply IH. right. by rewrite !save_lookup.
  - destruct Hstart as [|Hsame]; [lia|].
    unfold stat_size. rewrite Hsame.
    destruct (fs2 !! out_path) eqn:E; (split; [reflexivity|congruence]).
Qed.

(** X13.  For a start quality not below the floor the outcome of the
    encoder does not depend on what was at the destination before: from
    any other state of the files the call returns the same result and
    leaves the same bytes there.  In particular a second call right
    after the first returns the same result and changes nothing. *)
Theorem save_forgets_previous_output
    (max_kb quality_start quality_min quality_step : Z) (fs1 fs2 fs1' : files)
    (fuel : nat) (r : result (Z * Z)) :
  quality_min <= quality_start ->
  save_jpeg_under_limit fuel img out_path max_kb
    quality_start quality_min quality_step fs1 = Some (fs1', r) ->
  (exists fs2',
     save_jpeg_under_limit fuel img out_path max_kb
       quality_start quality_min quality_step fs2 = Some (fs2', r)
     /\ fs2' !! out_path = fs1' !! out_path)
  /\ save_jpeg_under_limit fuel img out_path max_kb
       quality_start quality_min quality_step fs1' = Some (fs1', r).
Proof.
  unfold save_jpeg_under_limit. intros Hq Hrun.
  assert (forall fs2 : files, exists fs2',
            save_loop fuel img out_path (max_kb * 1024) quality_min quality_step
              quality_start fs2 = Some (fs2', r)
            /\ fs2' !! out_path = fs1' !! out_path) as Hany.
  { intros fs. pose proof (save_loop_agree (max_kb * 1024) quality_min quality_step
                             fuel quality_start fs1 fs (or_introl Hq)) as Hag.
    rewrite Hrun in Hag.
    destruct (save_loop fuel img out_path _ _ _ _ fs) as [[f2 r2]|]; [|done].
    destruct Hag as [-> Hout]. by exists f2. }
  split; [apply Hany|].
  destruct (Hany fs1') as (f2 & Hrun2 & Hout).
  rewrite Hrun2. do 2 f_equal. apply map_eq. intros p.
  destruct (decide (p = out_path)) as [->|Hp]; [exact Hout|].
  exact (save_loop_frame _ _ _ _ _ _ _ _ Hrun2 p Hp).
Qed.

(** X14.  With a step that is zero or negative the quality never goes
    down, and when no trial of that scan meets the budget the loop has no
    end: the call does not return, whatever the fuel. *)
Theorem save_without_descent_never_returns
    (max_kb quality_start quality_min quality_step : Z) (fs : files) (fuel : nat) :
  quality_step <= 0 -> quality_min <= quality_start ->
  (forall k, 0 <= k ->
     ~ fits img (max_kb * 1024) (quality_start - k * quality_step)) ->
  save_jpeg_under_limit fuel img out_path max_kb
    quality_start quality_min quality_step fs = None.
Proof.
  unfold save_jpeg_under_limit. intros Hs.
  revert quality_start fs.
  induction fuel as [|fuel IH]; intros q fs Hq Hnone; [reflexivity|].
  cbn [save_loop].
  destruct (Z.leb_spec quality_min q); [|lia].
  rewrite stat_after_save.
  destruct (Z.leb_spec (trial_size img q) (max_kb * 1024)) as [Hfit|_].
  - exfalso. apply (Hnone 0); [lia|]. by replace (q - 0 * quality_step) with q by lia.
  - apply IH; [lia|]. intros k Hk.
    replace (q - quality_step - k * quality_step)
      with (q - (k + 1) * quality_step) by lia.
    apply Hnone. lia.
Qed.
End EncoderMore.

(** ** One file *)

Section OrchestratorFacts.
Context `{Backend} `{Decoder} `{Console}.





(** X16.  A file that cannot be processed is rejected before anything is
    written.  When the input cannot be opened (no file, or bytes that are
    no image), and when the size fitter raises, [process_one] raises that
    exception and leaves every file as it was, whatever the fuel; and a
    mode outside cover, contain and exact always makes the fitter
    raise. *)
Theorem process_one_rejects_before_writing (fuel : nat) (in_path out_dir : string)
    (size : Z * Z) (max_kb : Z) (mode watermark caption prefix suffix : string)
    (fs : files) :
  (forall e, image_open fs in_path = Raise e ->
     process_one fuel in_path out_dir size max_kb mode watermark caption
       prefix suffix fs = Some (fs, Raise e))
  /\ (forall src e,
        image_open fs in_path = Ok src ->
        outcome (resize_to_fit src size mode) = Raise e ->
        process_one fuel in_path out_dir size max_kb mode watermark caption
          prefix suffix fs = Some (fs, Raise e))
  /\ (forall src,
        image_open fs in_path = Ok src -> ~ known_mode mode ->
        exists e,
          process_one fuel in_path out_dir size max_kb mode watermark caption
            prefix suffix fs = Some (fs, Raise e)).
Proof.
  assert (forall src e,
            image_open fs in_path = Ok src ->
            outcome (resize_to_fit src size mode) = Raise e ->
            process_one fuel in_path out_dir size max_kb mode watermark caption
              prefix suffix fs = Some (fs, Raise e)) as Hfit.
  { intros src e Hopen Hraise. unfold process_one. cbv zeta.
    by rewrite Hopen, Hraise. }
  split; [|split; [exact Hfit|]].
  - intros e Hopen. unfold process_one. cbv zeta. by rewrite Hopen.
  - intros src Hopen Hk.
    destruct (unknown_mode_raises src size mode Hk) as [e He].
    exists e. by apply (Hfit src).
Qed.
End OrchestratorFacts.

(** ** A batch *)

Section BatchFacts.
Context `{Backend} `{Decoder} `{Console}.
Variables (fuel : nat) (out_dir : string) (size : Z * Z) (max_kb : Z).
Variables (mode watermark caption prefix suffix : string).

Local Abbreviation one f fs :=
  (process_one fuel f out_dir size max_kb mode watermark caption prefix suffix fs).
Local Abbreviation each inputs fs :=
  (process_each fuel inputs out_dir size max_kb mode watermark caption prefix
     suffix fs).


(** X18.  A batch stops at the first file that fails.  The files before
    it were processed in order, each from the files its predecessor left,
    and all succeeded; the exception of the batch is the exception of
    the failing file, and the files the batch leaves are those the
    failing call left; the files after it were not processed. *)
Theorem batch_stops_at_first_failure inputs : forall (fs fs' : files) e,
  process_each fuel inputs out_dir size max_kb mode watermark caption prefix
    suffix fs = Some (fs', Raise e) ->
  exists before f after lines fs_before,
    inputs = (before ++ f :: after)%list
    /\ process_each fuel before out_dir size max_kb mode watermark caption
         prefix suffix fs = Some (fs_before, Ok lines)
    /\ process_one fuel f out_dir size max_kb mode watermark caption prefix
         suffix fs_before = Some (fs', Raise e).
Proof.
  induction inputs as [|f rest IH]; intros fs fs' e;
    [intros Hnil; cbn in Hnil; discriminate Hnil|].
  cbn [process_each].
  destruct (one f fs) as [[fs1 [line|e1]]|] eqn:Hone; cbn beta iota; [| |discriminate].
  - destruct (each rest fs1) as [[fs2 [lines|e2]]|] eqn:Hrest; cbn beta iota;
      [discriminate| |discriminate].
    intros [= <- <-].
    destruct (IH _ _ _ Hrest)
      as (before & g & after & done_ & fs_before & -> & Hbefore & Hg).
    exists (f :: before), g, after, (line :: done_), fs_before.
    split; [reflexivity|]. split; [|exact Hg].
    cbn [process_each]. by rewrite Hone, Hbefore.
  - intros [= <- <-].
    exists [], f, rest, [], fs. by split_and!.
Qed.

End BatchFacts.

(** ** The further statements at concrete inputs *)

Lemma output_name_is_image_file_witness :
  (dots "IMG_1.PNG" = false /\ bare "IMG_1.PNG" = true
   /\ bare (strip " K0PRA ") = true /\ bare (strip "web") = true)
  /\ build_output_name "IMG_1.PNG" " K0PRA " "web" = "K0PRA_IMG_1_web.jpg"
  /\ is_image_file (build_output_name "IMG_1.PNG" " K0PRA " "web") = true.
Proof.
  split; [by split_and!|]. split; [reflexivity|].
  exact (proj2 (proj2 (proj2 (output_name_is_image_file "IMG_1.PNG" " K0PRA " "web"
                                eq_refl eq_refl eq_refl eq_refl)))).
Defined.

Lemma blank_affixes_witness :
  blank "  " = true
  /\ build_output_name "/in/IMG_1.PNG" "  " "" = "IMG_1.jpg".
Proof.
  split; [reflexivity|].
  rewrite (blank_affixes_are_ignored "/in/IMG_1.PNG" "  " "" eq_refl eq_refl).
  reflexivity.
Defined.

Lemma output_name_forgets_extension_witness :
  plain_extension "png" = true /\ plain_extension "jpeg" = true
  /\ build_output_name ("/in/photo" ++ "." ++ "png") "" ""
     = build_output_name ("/in/photo" ++ "." ++ "jpeg") "" "".
Proof.
  split; [reflexivity|]. split; [reflexivity|].
  apply (output_name_forgets_extension "/in/photo" "png" "jpeg" "" "");
    [vm_compute; discriminate|reflexivity|reflexivity].
Defined.

Lemma parse_size_reads_printed_frame_witness :
  (str_of_int 640 = Ok "640" /\ str_of_int (-480) = Ok "-480")
  /\ parse_size ("640" ++ "x" ++ "-480") = Ok (640, -480)
  /\ parse_size ("640" ++ "X" ++ "-480") = Ok (640, -480).
Proof.
  split; [split; vm_compute; reflexivity|].
  apply (parse_size_reads_printed_frame 640 (-480) "640" "-480");
    vm_compute; reflexivity.
Defined.

Lemma gui_checks_witness :
  (str_of_int 640 = Ok "640" /\ str_of_int 0 = Ok "0" /\ str_of_int 200 = Ok "200")
  /\ App._parse_size ("640" ++ "x" ++ "0")
     = Raise (ValueError "Target Size must be positive numbers")
  /\ _parse_max_kb "200" = Ok 200.
Proof.
  split; [split_and!; vm_compute; reflexivity|].
  apply (gui_checks_read_printed_integers 640 0 200 "640" "0" "200");
    vm_compute; reflexivity.
Defined.

Lemma gui_size_witness :
  (plain_text " 640X480 " = true /\ App._parse_size " 640X480 " = Ok (640, 480))
  /\ parse_size " 640X480 " = Ok (640, 480).
Proof.
  assert (App._parse_size " 640X480 " = Ok (640, 480)) as Hgui
    by (vm_compute; reflexivity).
  split; [split; [reflexivity|exact Hgui]|].
  exact (proj1 (gui_size_is_command_line_size " 640X480 " 640 480 eq_refl Hgui)).
Defined.

Lemma fitted_image_witness :
  exists im,
    outcome (resize_to_fit (gradient 800 600) (640, 480) "cover") = Ok im
    /\ PIL.size im = (640, 480) /\ PIL.mode im = "RGB".
Proof.
  destruct (outcome (resize_to_fit (gradient 800 600) (640, 480) "cover"))
    as [im|e] eqn:Hrun.
  - exists im. split; [reflexivity|].
    exact (fitted_image_is_rgb_frame (gradient 800 600) 640 480 "cover" im Hrun).
  - exfalso. vm_compute in Hrun. discriminate Hrun.
Defined.

Lemma exact_frame_witness :
  exists im,
    outcome (resize_to_fit (gradient 800 600) (640, 480) "exact") = Ok im
    /\ calls (resize_to_fit (gradient 800 600) (640, 480) "exact")
       = [CExifTranspose; CConvert "RGB"; CResize (640, 480)]
    /\ PIL.size im = (640, 480).
Proof.
  destruct (outcome (resize_to_fit (gradient 800 600) (640, 480) "exact"))
    as [im|e] eqn:Hrun.
  - destruct (exact_resamples_to_frame (gradient 800 600) 640 480 im Hrun)
      as (Hcalls & Hsize & _).
    exists im. split; [reflexivity|]. split; [exact Hcalls|exact Hsize].
  - exfalso. vm_compute in Hrun. discriminate Hrun.
Defined.

Lemma cover_window_witness :
  exists im nw nh,
    outcome (resize_to_fit (gradient 1000 500) (640, 480) "cover") = Ok im
    /\ calls (resize_to_fit (gradient 1000 500) (640, 480) "cover")
       = [CExifTranspose; CConvert "RGB"; CResize (nw, nh);
          CCrop ((nw - 640) / 2, (nh - 480) / 2,
                 (nw - 640) / 2 + 640, (nh - 480) / 2 + 480)].
Proof.
  destruct (outcome (resize_to_fit (gradient 1000 500) (640, 480) "cover"))
    as [im|e] eqn:Hrun.
  - destruct (cover_returns_centred_window (gradient 1000 500) 640 480 im Hrun)
      as (nw & nh & _ & _ & _ & _ & Hcalls & _).
    exists im, nw, nh. split; [reflexivity|exact Hcalls].
  - exfalso. vm_compute in Hrun. discriminate Hrun.
Defined.

Lemma add_watermark_keeps_frame_witness :
  let st : store := {[1%positive := gradient 640 480]} in
  st !! 1%positive = Some (gradient 640 480)
  /\ exists st' r im',
       add_watermark 1%positive "K0PRA" "field day" 14 st = (st', Ok r)
       /\ st' !! r = Some im' /\ PIL.size im' = (640, 480)
       /\ PIL.mode im' = "RGB".
Proof.
  intros st. split; [reflexivity|].
  destruct (add_watermark 1%positive "K0PRA" "field day" 14 st)
    as [st' [r|e]] eqn:Hrun.
  - destruct (add_watermark_keeps_frame st st' 1%positive (gradient 640 480)
                "K0PRA" "field day" 14 r eq_refl Hrun)
      as (im' & Hr & Hsize & Hmode & _).
    exists st', r, im'. by split_and!.
  - exfalso. vm_compute in Hrun. discriminate Hrun.
Defined.

Lemma overlay_fonts_witness :
  let st : store := {[1%positive := gradient 640 480]} in
  st !! 1%positive = Some (gradient 640 480)
  /\ exists r items y,
       add_watermark 1%positive "K0PRA|Parker" "field day" 14 st
       = (<[r := drawn (gradient 640 480) 14 y items]> st, Ok r)
       /\ map (fun item => snd (fst item)) items
          = [DefaultFont; DefaultFont; DefaultFont].
Proof.
  intros st. split; [reflexivity|].
  destruct (overlay_fonts_fall_back_together st 1%positive (gradient 640 480)
              "K0PRA|Parker" "field day" 14) as (r & items & y & Hrun & Hfonts);
    [reflexivity|].
  exists r, items, y. split; [exact Hrun|]. rewrite Hfonts. reflexivity.
Defined.

Lemma save_forgets_previous_output_witness :
  35 <= 88
  /\ save_jpeg_under_limit 19 (gradient 640 480) "OUT/a.jpg" 2 88 35 3
       (save (gradient 640 480) "OUT/a.jpg" 52 ∅)
     = Some (save (gradient 640 480) "OUT/a.jpg" 52 ∅, Ok (52, 2040)).
Proof.
  split; [lia|].
  apply (save_forgets_previous_output (gradient 640 480) "OUT/a.jpg" 2 88 35 3
           ∅ ∅ (save (gradient 640 480) "OUT/a.jpg" 52 ∅) 19 (Ok (52, 2040)));
    [lia|vm_compute; reflexivity].
Defined.

Lemma save_without_descent_witness :
  (0 <= 0 /\ 35 <= 88)
  /\ save_jpeg_under_limit 1000 (gradient 640 480) "OUT/a.jpg" 1 88 35 0 ∅ = None.
Proof.
  split; [lia|].
  apply (save_without_descent_never_returns (gradient 640 480) "OUT/a.jpg" 1 88 35 0
           ∅ 1000); [lia|lia|].
  intros k Hk. unfold fits. rewrite plain_trial_size; lia.
Defined.


Lemma zoom_is_unknown : ~ known_mode "zoom".
Proof. intros [Hm|[Hm|Hm]]; discriminate Hm. Defined.

Lemma process_one_rejects_witness :
  (image_open one_image "/in/a.png" = Ok (gradient 80 40) /\ ~ known_mode "zoom"
   /\ image_open one_image "/in/b.png" = Raise (FileNotFoundError "/in/b.png"))
  /\ (exists e,
        process_one 19 "/in/a.png" "/out" (64, 48) 2 "zoom" "K0PRA" "" "" ""
          one_image = Some (one_image, Raise e))
  /\ process_one 19 "/in/b.png" "/out" (64, 48) 2 "cover" "K0PRA" "" "" ""
       one_image = Some (one_image, Raise (FileNotFoundError "/in/b.png")).
Proof.
  split; [split_and!; [reflexivity|exact zoom_is_unknown|reflexivity]|].
  split.
  - exact (proj2 (proj2 (process_one_rejects_before_writing 19 "/in/a.png" "/out"
                           (64, 48) 2 "zoom" "K0PRA" "" "" "" one_image))
             (gradient 80 40) eq_refl zoom_is_unknown).
  - exact (proj1 (process_one_rejects_before_writing 19 "/in/b.png" "/out"
                    (64, 48) 2 "cover" "K0PRA" "" "" "" one_image)
             (FileNotFoundError "/in/b.png") eq_refl).
Defined.

Lemma batch_failure_witness :
  exists fs' before f after lines fs_before,
    process_each 19 ["/in/a.png"; "/in/c.png"; "/in/b.png"] "/out" (64, 48) 2
      "cover" "" "" "" "" two_images
    = Some (fs', Raise (FileNotFoundError "/in/c.png"))
    /\ ["/in/a.png"; "/in/c.png"; "/in/b.png"] = (before ++ f :: after)%list
    /\ process_each 19 before "/out" (64, 48) 2 "cover" "" "" "" "" two_images
       = Some (fs_before, Ok lines)
    /\ process_one 19 f "/out" (64, 48) 2 "cover" "" "" "" "" fs_before
       = Some (fs', Raise (FileNotFoundError "/in/c.png")).
Proof.
  destruct (process_each 19 ["/in/a.png"; "/in/c.png"; "/in/b.png"] "/out" (64, 48)
              2 "cover" "" "" "" "" two_images) as [[fs' [lines|e]]|] eqn:Hrun.
  - exfalso. vm_compute in Hrun. discriminate Hrun.
  - assert (e = FileNotFoundError "/in/c.png") as ->.
    { vm_compute in Hrun. by injection Hrun as _ <-. }
    destruct (batch_stops_at_first_failure _ _ _ _ _ _ _ _ _ _ _ _ _ Hrun)
      as (before & f & after & done_ & fs_before & Hcut & Hbefore & Hfail).
    exists fs', before, f, after, done_, fs_before.
    split; [reflexivity|]. split; [exact Hcut|]. split; [exact Hbefore|exact Hfail].
  - exfalso. vm_compute in Hrun. discriminate Hrun.
Defined.

